(** * gldriver/screen.go: the screen of the OpenGL driver

    A shallow embedding of [shiny/driver/gldriver/screen.go] and the
    properties of [NewBuffer], [NewTexture] and [NewWindow].

    The three methods are written once, as trees of the atomic actions the Go
    code performs (mutex operations, reads and writes of [theScreen], calls on
    a [gl.Context], calls to the platform).  The trees are then given two
    semantics over one store: a sequential one ([run]) and an interleaving of
    goroutines ([pstep]). *)

From Stdlib Require Import ZArith List Lia Permutation.
From stdpp Require Import base gmap strings list fin_maps.

Local Open Scope Z_scope.

(** ** Go's [int] on the 64-bit targets of the driver *)

Definition int_wrap (z : Z) : Z := (z + 2 ^ 63) mod 2 ^ 64 - 2 ^ 63.

(** A call returns, panics, or ends the process with a fatal error of the
    runtime, which no [recover] catches. *)
Inductive outcome (A : Type) : Type :=
| Returns (a : A)
| Panics (msg : string)
| Aborts (msg : string).
Arguments Returns {A} a.
Arguments Panics {A} msg.
Arguments Aborts {A} msg.

(** The memory the runtime can give.  [maxAlloc] is the largest size it
    accepts for one allocation (2^48 bytes on linux/amd64); [free_bytes] is
    what it can still obtain from the system. *)
Record Memory : Type := mkMemory { maxAlloc : Z; free_bytes : Z }.

(** [make([]uint8, n)] ([runtime.makeslice]): a length that is negative or
    beyond [maxAlloc] panics; memory that cannot be obtained is a fatal
    error; otherwise the slice has n zero bytes. *)
Definition make_bytes (mem : Memory) (n : Z) : outcome (list Byte.byte) :=
  if (n <? 0) || (maxAlloc mem <? n)
  then Panics "runtime error: makeslice: len out of range"
  else if free_bytes mem <? n
  then Aborts "fatal error: runtime: out of memory"
  else Returns (repeat Byte.x00 (Z.to_nat n)).

(** [error] values: the driver builds them with [fmt.Errorf]. *)
Inductive error : Type := Errorf (msg : string).

(** ** Package [image] of the Go standard library (the part [NewBuffer] calls) *)
Module image.

Record Point : Type := mkPoint { X : Z; Y : Z }.

Record Rectangle : Type := mkRectangle { Min : Point; Max : Point }.

(** The zero value of [Point]. *)
Definition ZP : Point := mkPoint 0 0.

Definition Dx (r : Rectangle) : Z := int_wrap (X (Max r) - X (Min r)).
Definition Dy (r : Rectangle) : Z := int_wrap (Y (Max r) - Y (Min r)).

Record RGBA : Type := mkRGBA { Pix : list Byte.byte; Stride : Z; Rect : Rectangle }.

(** [bits.Mul64]: the 128-bit product of two [uint64] as (hi, lo). *)
Definition Mul64 (x y : Z) : Z * Z := ((x * y) / 2 ^ 64, (x * y) mod 2 ^ 64).

(** [mul3NonNeg] returns x*y*z, or -1 if an argument is negative or the
    product overflows [int]. *)
Definition mul3NonNeg (x y z : Z) : Z :=
  if (x <? 0) || (y <? 0) || (z <? 0) then -1
  else
    let '(hi, lo) := Mul64 x y in
    if negb (hi =? 0) then -1
    else
      let '(hi, lo) := Mul64 lo z in
      if negb (hi =? 0) then -1
      else
        let a := int_wrap lo in
        if (a <? 0) || negb (a mod 2 ^ 64 =? lo) then -1 else a.

Definition pixelBufferLength (bytesPerPixel : Z) (r : Rectangle)
    (imageTypeName : string) : outcome Z :=
  let totalLength := mul3NonNeg bytesPerPixel (Dx r) (Dy r) in
  if totalLength <? 0
  then Panics ("image: New" ++ imageTypeName
               ++ " Rectangle has huge or negative dimensions")
  else Returns totalLength.

(** [NewRGBA]: the length is computed first, then the pixels are allocated. *)
Definition NewRGBA (mem : Memory) (r : Rectangle) : outcome RGBA :=
  match pixelBufferLength 4 r "RGBA" with
  | Panics msg => Panics msg
  | Aborts msg => Aborts msg
  | Returns n =>
      match make_bytes mem n with
      | Panics msg => Panics msg
      | Aborts msg => Aborts msg
      | Returns pix =>
          Returns {| Pix := pix; Stride := int_wrap (4 * Dx r); Rect := r |}
      end
  end.

End image.

(** ** Package [gl] (golang.org/x/mobile/gl): handles, enums, and a model of
    the state of one context, for the calls that appear in the driver *)
Module gl.

Definition Enum := Z.

Definition ARRAY_BUFFER : Enum := 0x8892.
Definition STATIC_DRAW : Enum := 0x88E4.
Definition TEXTURE_2D : Enum := 0x0DE1.
Definition RGBA : Enum := 0x1908.
Definition UNSIGNED_BYTE : Enum := 0x1401.
Definition TEXTURE_MAG_FILTER : Enum := 0x2800.
Definition TEXTURE_MIN_FILTER : Enum := 0x2801.
Definition TEXTURE_WRAP_S : Enum := 0x2802.
Definition TEXTURE_WRAP_T : Enum := 0x2803.
Definition LINEAR : Z := 0x2601.
Definition CLAMP_TO_EDGE : Z := 0x812F.
Definition TRIANGLE_STRIP : Enum := 0x0005.

Record Program : Type := mkProgram { Init : bool; pValue : N }.
Record Attrib : Type := mkAttrib { aValue : N }.
Record Uniform : Type := mkUniform { uValue : Z }.
Record Buffer : Type := mkBuffer { bValue : N }.
Record Texture : Type := mkTexture { tValue : N }.

(** A [gl.Context] value that is not nil: the name of a context.  A nil
    interface value is [None] in [option Context]. *)
Definition Context := nat.

(** The calls on a [gl.Context] made by the driver. *)
Inductive call : Type :=
| IsProgram (p : Program)
| GetAttribLocation (p : Program) (name : string)
| GetUniformLocation (p : Program) (name : string)
| CreateBuffer
| BindBuffer (target : Enum) (b : Buffer)
| BufferData (target : Enum) (src : list Byte.byte) (usage : Enum)
| CreateTexture
| BindTexture (target : Enum) (t : Texture)
| TexImage2D (target : Enum) (level width height : Z) (format ty : Enum)
    (data : option (list Byte.byte))
| TexParameteri (target pname : Enum) (param : Z)
| TexSubImage2D (target : Enum) (level x y width height : Z) (format ty : Enum)
    (data : list Byte.byte)
| UseProgram (p : Program)
| UniformMatrix3fv (dst : Uniform) (src : list Z)
| Uniform1i (dst : Uniform) (v : Z)
| DrawArrays (mode : Enum) (first count : Z).

(** The Go result type of each call. *)
Definition res (c : call) : Type :=
  match c with
  | IsProgram _ => bool
  | GetAttribLocation _ _ => Attrib
  | GetUniformLocation _ _ => Uniform
  | CreateBuffer => Buffer
  | CreateTexture => Texture
  | _ => unit
  end.

(** A texture object: the level-0 image requested for it and its integer
    parameters. *)
Record texobj : Type := mkTexobj {
  tex_width : Z;
  tex_height : Z;
  tex_format : Enum;
  tex_params : gmap Z Z
}.

Definition texobj0 : texobj := mkTexobj 0 0 0 ∅.

Record State : Type := mkState {
  programs : gset N;          (* names for which glIsProgram holds *)
  next_buffer : N;            (* next name handed out by glGenBuffers *)
  next_texture : N;           (* next name handed out by glGenTextures *)
  array_buffer : Buffer;      (* the ARRAY_BUFFER binding *)
  texture_2d : Texture;       (* the TEXTURE_2D binding *)
  buffers : gmap N (list Byte.byte);
  textures : gmap N texobj;
  draws : nat                 (* draw calls issued *)
}.

Definition State0 : State :=
  mkState ∅ 1 1 (mkBuffer 0) (mkTexture 0) ∅ ∅ 0.

Definition set_programs (v : gset N) (g : State) : State :=
  mkState v (next_buffer g) (next_texture g) (array_buffer g) (texture_2d g)
    (buffers g) (textures g) (draws g).
Definition set_next_buffer (v : N) (g : State) : State :=
  mkState (programs g) v (next_texture g) (array_buffer g) (texture_2d g)
    (buffers g) (textures g) (draws g).
Definition set_next_texture (v : N) (g : State) : State :=
  mkState (programs g) (next_buffer g) v (array_buffer g) (texture_2d g)
    (buffers g) (textures g) (draws g).
Definition set_array_buffer (v : Buffer) (g : State) : State :=
  mkState (programs g) (next_buffer g) (next_texture g) v (texture_2d g)
    (buffers g) (textures g) (draws g).
Definition set_texture_2d (v : Texture) (g : State) : State :=
  mkState (programs g) (next_buffer g) (next_texture g) (array_buffer g) v
    (buffers g) (textures g) (draws g).
Definition set_buffers (v : gmap N (list Byte.byte)) (g : State) : State :=
  mkState (programs g) (next_buffer g) (next_texture g) (array_buffer g)
    (texture_2d g) v (textures g) (draws g).
Definition set_textures (v : gmap N texobj) (g : State) : State :=
  mkState (programs g) (next_buffer g) (next_texture g) (array_buffer g)
    (texture_2d g) (buffers g) v (draws g).
Definition set_draws (v : nat) (g : State) : State :=
  mkState (programs g) (next_buffer g) (next_texture g) (array_buffer g)
    (texture_2d g) (buffers g) (textures g) v.

(** Update the texture object bound to TEXTURE_2D (created on first use). *)
Definition upd_bound (f : texobj → texobj) (g : State) : State :=
  let n := tValue (texture_2d g) in
  set_textures (<[n := f (default texobj0 (textures g !! n))]> (textures g)) g.

Definition set_size (w h : Z) (fmt : Enum) (o : texobj) : texobj :=
  mkTexobj w h fmt (tex_params o).
Definition set_param (pname param : Z) (o : texobj) : texobj :=
  mkTexobj (tex_width o) (tex_height o) (tex_format o)
    (<[pname := param]> (tex_params o)).

(** What linking decided: where a program's attributes and uniforms live.
    The driver does not compute these; they are a parameter. *)
Record Linker : Type := mkLinker {
  attribLocation : State → Program → string → Attrib;
  uniformLocation : State → Program → string → Uniform
}.

(** The effect of one call on the state of its context. *)
Definition exec (L : Linker) (c : call) (g : State) : res c * State :=
  match c as c0 return res c0 * State with
  | IsProgram p => (bool_decide (pValue p ∈ programs g), g)
  | GetAttribLocation p name => (attribLocation L g p name, g)
  | GetUniformLocation p name => (uniformLocation L g p name, g)
  | CreateBuffer =>
      (mkBuffer (next_buffer g), set_next_buffer (next_buffer g + 1)%N g)
  | BindBuffer target b =>
      (tt, if target =? ARRAY_BUFFER then set_array_buffer b g else g)
  | BufferData target src usage =>
      (tt, if target =? ARRAY_BUFFER
           then set_buffers (<[bValue (array_buffer g) := src]> (buffers g)) g
           else g)
  | CreateTexture =>
      (mkTexture (next_texture g), set_next_texture (next_texture g + 1)%N g)
  | BindTexture target t =>
      (tt, if target =? TEXTURE_2D then set_texture_2d t g else g)
  | TexImage2D target level width height format ty data =>
      (tt, if (target =? TEXTURE_2D) && (level =? 0)
           then upd_bound (set_size width height format) g else g)
  | TexParameteri target pname param =>
      (tt, if target =? TEXTURE_2D
           then upd_bound (set_param pname param) g else g)
  | TexSubImage2D _ _ _ _ _ _ _ _ _ => (tt, g)
  | UseProgram _ => (tt, g)
  | UniformMatrix3fv _ _ => (tt, g)
  | Uniform1i _ _ => (tt, g)
  | DrawArrays _ _ _ => (tt, set_draws (S (draws g)) g)
  end.

End gl.


(** ** The data of package [gldriver] *)

(** [uintptr] values are [Z]; pointers to heap objects ([*windowImpl],
    channels, pumps) are [nat] locations. *)

(** A [chan struct{}]: its capacity and the number of buffered values (the
    values themselves carry nothing). *)
Record chan : Type := mkChan { cap : nat; len : nat }.

(** [theScreen] is the only [screenImpl]; a [*screenImpl] is a pointer to it. *)
Inductive screenptr : Type := theScreenPtr.

(** [windowImpl], with the fields that [screen.go] names: those of the
    literal in [NewWindow], [ctx] (assigned there) and [glctx] (read by
    [NewTexture]). *)
Record windowImpl : Type := mkWindowImpl {
  s : screenptr;
  w_id : Z;
  pump : nat;
  publish : nat;
  draw : nat;
  drawDone : nat;
  ctx : Z;
  glctx : option gl.Context
}.

Definition set_ctx (v : Z) (w : windowImpl) : windowImpl :=
  mkWindowImpl (s w) (w_id w) (pump w) (publish w) (draw w) (drawDone w) v (glctx w).

Definition set_glctx (v : option gl.Context) (w : windowImpl) : windowImpl :=
  mkWindowImpl (s w) (w_id w) (pump w) (publish w) (draw w) (drawDone w) (ctx w) v.

Record textureImpl : Type := mkTextureImpl {
  t_glctx : gl.Context;
  t_id : gl.Texture;
  t_size : image.Point
}.

Record bufferImpl : Type := mkBufferImpl {
  rgba : image.RGBA;
  b_size : image.Point
}.

(** The anonymous struct [screenImpl.texture]. *)
Record textureState : Type := mkTextureState {
  program : gl.Program;
  pos : gl.Attrib;
  mvp : gl.Uniform;
  uvp : gl.Uniform;
  inUV : gl.Attrib;
  sample : gl.Uniform;
  quad : gl.Buffer
}.

(** The anonymous struct [screenImpl.fill]. *)
Record fillState : Type := mkFillState {
  fill_program : gl.Program;
  fill_pos : gl.Attrib;
  fill_mvp : gl.Uniform;
  fill_color : gl.Uniform;
  fill_quad : gl.Buffer
}.

Record screenImpl : Type := mkScreenImpl {
  texture : textureState;
  fill : fillState;
  mu : bool;                      (* s.mu: true while locked *)
  windows : gmap Z nat            (* map[uintptr]*windowImpl *)
}.

Definition set_texture (v : textureState) (sc : screenImpl) : screenImpl :=
  mkScreenImpl v (fill sc) (mu sc) (windows sc).
Definition set_mu (v : bool) (sc : screenImpl) : screenImpl :=
  mkScreenImpl (texture sc) (fill sc) v (windows sc).
Definition set_windows (v : gmap Z nat) (sc : screenImpl) : screenImpl :=
  mkScreenImpl (texture sc) (fill sc) (mu sc) v.

(** The fields of [s.texture], with the type each holds. *)
Inductive texfield : Type → Type :=
| Fprogram : texfield gl.Program
| Fpos : texfield gl.Attrib
| Fmvp : texfield gl.Uniform
| Fuvp : texfield gl.Uniform
| FinUV : texfield gl.Attrib
| Fsample : texfield gl.Uniform
| Fquad : texfield gl.Buffer.

Definition tex_get {T} (f : texfield T) (t : textureState) : T :=
  match f in texfield T0 return T0 with
  | Fprogram => program t
  | Fpos => pos t
  | Fmvp => mvp t
  | Fuvp => uvp t
  | FinUV => inUV t
  | Fsample => sample t
  | Fquad => quad t
  end.

Definition tex_set {T} (f : texfield T) : T → textureState → textureState :=
  match f in texfield T0 return T0 → textureState → textureState with
  | Fprogram => λ v t, mkTextureState v (pos t) (mvp t) (uvp t) (inUV t) (sample t) (quad t)
  | Fpos => λ v t, mkTextureState (program t) v (mvp t) (uvp t) (inUV t) (sample t) (quad t)
  | Fmvp => λ v t, mkTextureState (program t) (pos t) v (uvp t) (inUV t) (sample t) (quad t)
  | Fuvp => λ v t, mkTextureState (program t) (pos t) (mvp t) v (inUV t) (sample t) (quad t)
  | FinUV => λ v t, mkTextureState (program t) (pos t) (mvp t) (uvp t) v (sample t) (quad t)
  | Fsample => λ v t, mkTextureState (program t) (pos t) (mvp t) (uvp t) (inUV t) v (quad t)
  | Fquad => λ v t, mkTextureState (program t) (pos t) (mvp t) (uvp t) (inUV t) (sample t) v
  end.

(** The two mutexes of the file: the package-level [glMu] and [s.mu]. *)
Inductive mutex : Type := glMu | s_mu.

(** Calls into the platform's window system. *)
Inductive pcall : Type :=
| newWindowCall (width height : Z)
| showWindowCall (id : Z).

(** Goroutines started by the file. *)
Inductive goroutine : Type := drawLoop (w : nat).

(** ** The store *)

Record World : Type := mkWorld {
  glMu_locked : bool;                 (* glMu: true while locked *)
  theScreen : screenImpl;
  wheap : gmap nat windowImpl;        (* the windowImpl objects *)
  chans : gmap nat chan;              (* the channels *)
  next_loc : nat;                     (* allocator of heap locations *)
  glctxs : gmap nat gl.State;         (* the state behind each gl.Context *)
  rand : list nat;                    (* the runtime's source of map iteration order *)
  platform : list pcall;              (* calls made to the platform, latest first *)
  goroutines : list goroutine         (* goroutines started, latest first *)
}.

Definition set_glMu (v : bool) (w : World) : World :=
  mkWorld v (theScreen w) (wheap w) (chans w) (next_loc w) (glctxs w) (rand w)
    (platform w) (goroutines w).
Definition set_theScreen (v : screenImpl) (w : World) : World :=
  mkWorld (glMu_locked w) v (wheap w) (chans w) (next_loc w) (glctxs w) (rand w)
    (platform w) (goroutines w).
Definition set_wheap (v : gmap nat windowImpl) (w : World) : World :=
  mkWorld (glMu_locked w) (theScreen w) v (chans w) (next_loc w) (glctxs w) (rand w)
    (platform w) (goroutines w).
Definition set_chans (v : gmap nat chan) (w : World) : World :=
  mkWorld (glMu_locked w) (theScreen w) (wheap w) v (next_loc w) (glctxs w) (rand w)
    (platform w) (goroutines w).
Definition set_next_loc (v : nat) (w : World) : World :=
  mkWorld (glMu_locked w) (theScreen w) (wheap w) (chans w) v (glctxs w) (rand w)
    (platform w) (goroutines w).
Definition set_glctxs (v : gmap nat gl.State) (w : World) : World :=
  mkWorld (glMu_locked w) (theScreen w) (wheap w) (chans w) (next_loc w) v (rand w)
    (platform w) (goroutines w).
Definition set_rand (v : list nat) (w : World) : World :=
  mkWorld (glMu_locked w) (theScreen w) (wheap w) (chans w) (next_loc w) (glctxs w) v
    (platform w) (goroutines w).
Definition set_platform (v : list pcall) (w : World) : World :=
  mkWorld (glMu_locked w) (theScreen w) (wheap w) (chans w) (next_loc w) (glctxs w)
    (rand w) v (goroutines w).
Definition set_goroutines (v : list goroutine) (w : World) : World :=
  mkWorld (glMu_locked w) (theScreen w) (wheap w) (chans w) (next_loc w) (glctxs w)
    (rand w) (platform w) v.

(** [var theScreen = &screenImpl{windows: make(map[uintptr]*windowImpl)}]: every
    other field has its zero value. *)
Definition screen0 : screenImpl :=
  mkScreenImpl
    (mkTextureState (gl.mkProgram false 0) (gl.mkAttrib 0) (gl.mkUniform 0)
       (gl.mkUniform 0) (gl.mkAttrib 0) (gl.mkUniform 0) (gl.mkBuffer 0))
    (mkFillState (gl.mkProgram false 0) (gl.mkAttrib 0) (gl.mkUniform 0)
       (gl.mkUniform 0) (gl.mkBuffer 0))
    false ∅.

(** The store at program start, for a given source of iteration orders. *)
Definition world0 (seeds : list nat) : World :=
  mkWorld false screen0 ∅ ∅ 0 ∅ seeds [] [].

(** The state behind a context (a context never used has the initial state). *)
Definition ctx_state (w : World) (c : gl.Context) : gl.State :=
  default gl.State0 (glctxs w !! c).

(** Replace the state behind a context. *)
Definition put_ctx (c : gl.Context) (g : gl.State) (w : World) : World :=
  set_glctxs (<[c := g]> (glctxs w)) w.

(** The first entry a [range] over the map yields: Go leaves the order
    unspecified, the runtime draws it from its random source.  [seed] makes
    the choice; every entry is chosen by some seed. *)
Definition range_first {V} (seed : nat) (m : gmap Z V) : option (Z * V) :=
  map_to_list m !! (seed mod length (map_to_list m))%nat.

(** ** What the file takes from the rest of the repository and the platform

    [compileProgram], the shader sources and [quadCoords] are declared in
    other files of the package; [newWindow] and [showWindow] belong to the
    platform layer.  They are parameters of the development.  The platform's
    answers may depend on the calls made so far. *)
Class Driver : Type := mkDriver {
  linker : gl.Linker;
  compileProgram :
    string → string → gl.State → (gl.Program * option error) * gl.State;
  textureVertexSrc : string;
  textureFragmentSrc : string;
  quadCoords : list Byte.byte;
  newWindow : list pcall → Z → Z → Z;
  showWindow : list pcall → Z → Z
}.

(** ** Atomic actions *)

Inductive Event : Type → Type :=
(* sync.Mutex *)
| Lock (m : mutex) : Event unit
| Unlock (m : mutex) : Event unit
(* theScreen and the objects it points to *)
| RangeWindows : Event (option nat)
| LoadGlctx (w : nat) : Event (option gl.Context)
| LoadTex {T} (f : texfield T) : Event T
| StoreTex {T} (f : texfield T) (v : T) : Event unit
| AllocWindow (w : windowImpl) : Event nat
| StoreWindows (id : Z) (w : nat) : Event unit
| StoreCtx (w : nat) (c : Z) : Event unit
| LoadPublish (w : nat) : Event nat
(* the GPU *)
| CompileProgram (c : gl.Context) (vSrc fSrc : string)
    : Event (gl.Program * option error)
| GL (c : gl.Context) (call : gl.call) : Event (gl.res call)
(* the platform and the runtime *)
| CallNewWindow (width height : Z) : Event Z
| CallShowWindow (id : Z) : Event Z
| PumpMake : Event nat
| MakeChan (capacity : nat) : Event nat
| TrySend (ch : nat) : Event bool
| TryRecv (ch : nat) : Event bool
| Go (g : goroutine) : Event unit.

(** Programs: a result, or an action and what follows its answer. *)
Inductive Op (A : Type) : Type :=
| Ret (a : A)
| Vis {R : Type} (e : Event R) (k : R → Op A).
Arguments Ret {A} a.
Arguments Vis {A R} e k.

Fixpoint bind {A B} (m : Op A) (f : A → Op B) : Op B :=
  match m with
  | Ret a => f a
  | Vis e k => Vis e (λ r, bind (k r) f)
  end.

#[export] Instance Op_ret : MRet Op := @Ret.
#[export] Instance Op_bind : MBind Op := λ A B f m, bind m f.

(** One action as a program. *)
Definition act {R} (e : Event R) : Op R := Vis e Ret.

(** [defer d] before [body]: [d] runs when [body] returns. *)
Definition defer {A} (d : Op unit) (body : Op A) : Op A :=
  r ← body; d ;; mret r.

(** An action together with its answer, as it appears in a trace. *)
Inductive label : Type :=
| Lbl {R : Type} (e : Event R) (r : R).

(** Put an action in front of the trace of an execution. *)
Definition prepend {A} (l : label) (x : list label * World * option A)
    : list label * World * option A :=
  (l :: x.1.1, x.1.2, x.2).

Section Semantics.
Context `{D : Driver}.

(** The effect of one action on the store; [None] when the action cannot
    proceed: a [Lock] of a locked mutex blocks, an [Unlock] of an unlocked
    mutex and the use of a dangling pointer are fatal. *)
Definition handle {R} (e : Event R) (w : World) : option (R * World) :=
  match e in Event R0 return option (R0 * World) with
  | Lock glMu =>
      if glMu_locked w then None else Some (tt, set_glMu true w)
  | Unlock glMu =>
      if glMu_locked w then Some (tt, set_glMu false w) else None
  | Lock s_mu =>
      if mu (theScreen w) then None
      else Some (tt, set_theScreen (set_mu true (theScreen w)) w)
  | Unlock s_mu =>
      if mu (theScreen w)
      then Some (tt, set_theScreen (set_mu false (theScreen w)) w)
      else None
  | RangeWindows =>
      Some (snd <$> range_first (hd 0%nat (rand w)) (windows (theScreen w)),
            set_rand (tl (rand w)) w)
  | LoadGlctx p => win ← wheap w !! p; Some (glctx win, w)
  | LoadTex f => Some (tex_get f (texture (theScreen w)), w)
  | StoreTex f v =>
      Some (tt, set_theScreen
                  (set_texture (tex_set f v (texture (theScreen w))) (theScreen w)) w)
  | AllocWindow win =>
      Some (next_loc w,
            set_next_loc (S (next_loc w)) (set_wheap (<[next_loc w := win]> (wheap w)) w))
  | StoreWindows id p =>
      Some (tt, set_theScreen
                  (set_windows (<[id := p]> (windows (theScreen w))) (theScreen w)) w)
  | StoreCtx p c =>
      win ← wheap w !! p;
      Some (tt, set_wheap (<[p := set_ctx c win]> (wheap w)) w)
  | LoadPublish p => win ← wheap w !! p; Some (publish win, w)
  | CompileProgram c vSrc fSrc =>
      let '(r, g) := compileProgram vSrc fSrc (ctx_state w c) in
      Some (r, put_ctx c g w)
  | GL c call =>
      let '(r, g) := gl.exec linker call (ctx_state w c) in
      Some (r, put_ctx c g w)
  | CallNewWindow width height =>
      Some (newWindow (platform w) width height,
            set_platform (newWindowCall width height :: platform w) w)
  | CallShowWindow id =>
      Some (showWindow (platform w) id,
            set_platform (showWindowCall id :: platform w) w)
  | PumpMake => Some (next_loc w, set_next_loc (S (next_loc w)) w)
  | MakeChan capacity =>
      Some (next_loc w,
            set_next_loc (S (next_loc w))
              (set_chans (<[next_loc w := mkChan capacity 0]> (chans w)) w))
  | TrySend ch =>
      c ← chans w !! ch;
      if decide (len c < cap c)%nat
      then Some (true, set_chans (<[ch := mkChan (cap c) (S (len c))]> (chans w)) w)
      else Some (false, w)
  | TryRecv ch =>
      c ← chans w !! ch;
      match len c with
      | O => Some (false, w)
      | S n => Some (true, set_chans (<[ch := mkChan (cap c) n]> (chans w)) w)
      end
  | Go g => Some (tt, set_goroutines (g :: goroutines w) w)
  end.

(** Sequential execution: the actions performed with their answers, the
    store reached, and the result ([None] if an action could not proceed). *)
Fixpoint run {A} (m : Op A) (w : World) : list label * World * option A :=
  match m with
  | Ret a => ([], w, Some a)
  | Vis e k =>
      match handle e w with
      | None => ([], w, None)
      | Some (r, w') =>
          let '(tr, w'', a) := run (k r) w' in (Lbl e r :: tr, w'', a)
      end
  end.

(** One action of one goroutine. *)
Inductive step {A} : Op A * World → label → Op A * World → Prop :=
| step_vis {R} (e : Event R) (k : R → Op A) w r w' :
    handle e w = Some (r, w') →
    step (Vis e k, w) (Lbl e r) (k r, w').

(** Any number of actions of one goroutine, with their trace. *)
Inductive steps {A} : Op A * World → list label → Op A * World → Prop :=
| steps_nil st : steps st [] st
| steps_cons st1 l st2 tr st3 :
    step st1 l st2 → steps st2 tr st3 → steps st1 (l :: tr) st3.

End Semantics.

(** [P] holds of every value the program can return, whatever the actions
    answer. *)
Fixpoint all_leaves {A} (P : A → Prop) (m : Op A) : Prop :=
  match m with
  | Ret a => P a
  | Vis e k => ∀ r, all_leaves P (k r)
  end.

(** ** screen.go *)

(** [NewBuffer] (lines 54-59).  It touches neither the store nor a context;
    it does not return when [image.NewRGBA] panics on the rectangle or
    cannot get the memory for the pixels from [mem]. *)
Definition NewBuffer (mem : Memory) (size : image.Point)
    : outcome (option bufferImpl * option error) :=
  match image.NewRGBA mem (image.mkRectangle image.ZP size) with
  | Panics msg => Panics msg
  | Aborts msg => Aborts msg
  | Returns img => Returns (Some {| rgba := img; b_size := size |}, None)
  end.

(** The error of line 77; the spec calls it [NoContextAvailable]. *)
Definition NoContextAvailable : error :=
  Errorf "gldriver: no GL context available".

Section Screen.
Context `{D : Driver}.

(** Lines 71-75: [for _, w := range s.windows { glctx = w.glctx; break }]
    on a [glctx] that starts nil. *)
Definition find_glctx : Op (option gl.Context) :=
  first ← act RangeWindows;
  match first with
  | Some w => act (LoadGlctx w)
  | None => mret None
  end.

(** Lines 85-94: the body of the [if] after a successful compilation. *)
Definition setup_texture_program (glctx : gl.Context) (p : gl.Program) : Op unit :=
  act (StoreTex Fprogram p) ;;
  a ← act (GL glctx (gl.GetAttribLocation p "pos"));
  act (StoreTex Fpos a) ;;
  u ← act (GL glctx (gl.GetUniformLocation p "mvp"));
  act (StoreTex Fmvp u) ;;
  u ← act (GL glctx (gl.GetUniformLocation p "uvp"));
  act (StoreTex Fuvp u) ;;
  a ← act (GL glctx (gl.GetAttribLocation p "inUV"));
  act (StoreTex FinUV a) ;;
  u ← act (GL glctx (gl.GetUniformLocation p "sample"));
  act (StoreTex Fsample u) ;;
  b ← act (GL glctx gl.CreateBuffer);
  act (StoreTex Fquad b) ;;
  q ← act (LoadTex Fquad);
  act (GL glctx (gl.BindBuffer gl.ARRAY_BUFFER q)) ;;
  act (GL glctx (gl.BufferData gl.ARRAY_BUFFER quadCoords gl.STATIC_DRAW)).

(** Lines 97-110: the texture object and its parameters. *)
Definition alloc_texture (glctx : gl.Context) (size : image.Point)
    : Op (option textureImpl * option error) :=
  id ← act (GL glctx gl.CreateTexture);
  let t := {| t_glctx := glctx; t_id := id; t_size := size |} in
  act (GL glctx (gl.BindTexture gl.TEXTURE_2D (t_id t))) ;;
  act (GL glctx (gl.TexImage2D gl.TEXTURE_2D 0 (image.X size) (image.Y size)
                   gl.RGBA gl.UNSIGNED_BYTE None)) ;;
  act (GL glctx (gl.TexParameteri gl.TEXTURE_2D gl.TEXTURE_MAG_FILTER gl.LINEAR)) ;;
  act (GL glctx (gl.TexParameteri gl.TEXTURE_2D gl.TEXTURE_MIN_FILTER gl.LINEAR)) ;;
  act (GL glctx (gl.TexParameteri gl.TEXTURE_2D gl.TEXTURE_WRAP_S gl.CLAMP_TO_EDGE)) ;;
  act (GL glctx (gl.TexParameteri gl.TEXTURE_2D gl.TEXTURE_WRAP_T gl.CLAMP_TO_EDGE)) ;;
  mret (Some t, None).

(** Lines 71-110: the body of [NewTexture], between [Lock] and the deferred
    [Unlock].  Each [return] of the Go code is a leaf of the tree. *)
Definition NewTexture_body (size : image.Point)
    : Op (option textureImpl * option error) :=
  glctx ← find_glctx;
  match glctx with
  | None => mret (None, Some NoContextAvailable)
  | Some glctx =>
      p0 ← act (LoadTex Fprogram);
      valid ← act (GL glctx (gl.IsProgram p0));
      if negb valid then
        '(p, err) ← act (CompileProgram glctx textureVertexSrc textureFragmentSrc);
        match err with
        | Some err => mret (None, Some err)
        | None => setup_texture_program glctx p ;; alloc_texture glctx size
        end
      else alloc_texture glctx size
  end.

(** [NewTexture] (lines 61-111). *)
Definition NewTexture (size : image.Point)
    : Op (option textureImpl * option error) :=
  act (Lock glMu) ;;
  defer (act (Unlock glMu)) (NewTexture_body size).

(** [NewWindow] (lines 113-136).  [opts] is not looked at (line 114), so the
    type of the options is left open. *)
Definition NewWindow {NewWindowOptions : Type} (opts : option NewWindowOptions)
    : Op (option nat * option error) :=
  let width := 1024 in
  let height := 768 in
  id ← act (CallNewWindow width height);
  pm ← act PumpMake;
  pub ← act (MakeChan 1);
  dr ← act (MakeChan 0);
  dd ← act (MakeChan 0);
  w ← act (AllocWindow {| s := theScreenPtr; w_id := id; pump := pm; publish := pub;
                          draw := dr; drawDone := dd; ctx := 0; glctx := None |});
  act (Lock s_mu) ;;
  act (StoreWindows id w) ;;
  act (Unlock s_mu) ;;
  c ← act (CallShowWindow id);
  act (StoreCtx w c) ;;
  act (Go (drawLoop w)) ;;
  mret (Some w, None).

(** Modelled from the spec: [Publish] is a method of [windowImpl] declared
    outside [screen.go].  Section 9 of the spec gives it as "a bounded channel
    of capacity 1 with non-blocking send that drops on full"; section 8 calls
    it [publish()].  The result tells whether the signal was buffered. *)
Definition Publish (w : nat) : Op bool :=
  ch ← act (LoadPublish w);
  act (TrySend ch).

(** Modelled from the spec: the consumer of the publish signal ("consumed by
    the presentation path", section 4.4) takes a pending signal if there is
    one.  The result tells whether a signal was observed. *)
Definition ConsumePublish (w : nat) : Op bool :=
  ch ← act (LoadPublish w);
  act (TryRecv ch).

End Screen.

(** ** A driver to run the definitions on *)

(** A compiler that rejects an empty vertex shader and otherwise links a
    program under the first unused name. *)
Definition fake_compile (vSrc fSrc : string) (g : gl.State)
    : (gl.Program * option error) * gl.State :=
  if decide (vSrc = "") then
    ((gl.mkProgram false 0, Some (Errorf "gldriver: shader compile: empty source")), g)
  else
    let n := (N.of_nat (size (gl.programs g)) + 1)%N in
    ((gl.mkProgram true n, None), gl.set_programs ({[ n ]} ∪ gl.programs g) g).

Definition fake_linker : gl.Linker :=
  gl.mkLinker (λ _ _ name, gl.mkAttrib (N.of_nat (String.length name)))
              (λ _ _ name, gl.mkUniform (Z.of_nat (String.length name))).

Definition fakeDriver (vSrc : string) : Driver :=
  mkDriver fake_linker fake_compile vSrc "void main() {}" [Byte.x00; Byte.x01]
    (λ h _ _, 4096 + Z.of_nat (length h)) (λ h id, id + 1).

(** [screen.go] never assigns [glctx]; the code that does is elsewhere in
    the package.  To run [NewTexture] on a store where a window has its
    context, this gives the window at [p] the context [c]. *)
Definition attach_glctx (p : nat) (c : gl.Context) (w : World) : World :=
  match wheap w !! p with
  | Some win => set_wheap (<[p := set_glctx (Some c) win]> (wheap w)) w
  | None => w
  end.


(** ** Reading a trace *)

(** The name [CreateTexture] hands out in state [g]. *)
Definition new_texture_id (g : gl.State) : gl.Texture :=
  gl.mkTexture (gl.next_texture g).

Definition is_compile (l : label) : bool :=
  match l with
  | Lbl (CompileProgram _ _ _) _ => true
  | _ => false
  end.

(** A compilation that returned a program and a nil error. *)
Definition is_compiled (l : label) : bool :=
  match l with
  | @Lbl _ (CompileProgram _ _ _) r => bool_decide (snd r = None)
  | _ => false
  end.

(** An action on the GPU: a call on a context, or [compileProgram] (which is
    made of such calls). *)
Definition is_gpu (l : label) : bool :=
  match l with
  | Lbl (CompileProgram _ _ _) _ => true
  | Lbl (GL _ _) _ => true
  | _ => false
  end.

Definition is_store_tex (l : label) : bool :=
  match l with
  | Lbl (StoreTex _ _) _ => true
  | _ => false
  end.

Definition is_call_new_window (l : label) : bool :=
  match l with
  | Lbl (CallNewWindow _ _) _ => true
  | _ => false
  end.

(** The actions that give a window its context: [showWindow] and the
    assignment of [w.ctx]. *)
Definition is_attach (l : label) : bool :=
  match l with
  | Lbl (CallShowWindow _) _ => true
  | Lbl (StoreCtx _ _) _ => true
  | _ => false
  end.

Definition is_create_texture (l : label) : bool :=
  match l with
  | Lbl (GL _ gl.CreateTexture) _ => true
  | _ => false
  end.

Section Traces.
Context `{D : Driver}.

(** The window the loop of line 72 visits first: entry [id] of the registry,
    the object at [p]. *)
Definition visits (w : World) (id : Z) (p : nat) : Prop :=
  range_first (hd 0%nat (rand w)) (windows (theScreen w)) = Some (id, p).

(** The actions of lines 85-94 when the state after compilation is [g]. *)
Definition setup_trace (c : gl.Context) (p : gl.Program) (g : gl.State)
    : list label :=
  let L := linker in
  let b := gl.mkBuffer (gl.next_buffer g) in
  [ Lbl (StoreTex Fprogram p) tt;
    Lbl (GL c (gl.GetAttribLocation p "pos")) (gl.attribLocation L g p "pos");
    Lbl (StoreTex Fpos (gl.attribLocation L g p "pos")) tt;
    Lbl (GL c (gl.GetUniformLocation p "mvp")) (gl.uniformLocation L g p "mvp");
    Lbl (StoreTex Fmvp (gl.uniformLocation L g p "mvp")) tt;
    Lbl (GL c (gl.GetUniformLocation p "uvp")) (gl.uniformLocation L g p "uvp");
    Lbl (StoreTex Fuvp (gl.uniformLocation L g p "uvp")) tt;
    Lbl (GL c (gl.GetAttribLocation p "inUV")) (gl.attribLocation L g p "inUV");
    Lbl (StoreTex FinUV (gl.attribLocation L g p "inUV")) tt;
    Lbl (GL c (gl.GetUniformLocation p "sample")) (gl.uniformLocation L g p "sample");
    Lbl (StoreTex Fsample (gl.uniformLocation L g p "sample")) tt;
    Lbl (GL c gl.CreateBuffer) b;
    Lbl (StoreTex Fquad b) tt;
    Lbl (LoadTex Fquad) b;
    Lbl (GL c (gl.BindBuffer gl.ARRAY_BUFFER b)) tt;
    Lbl (GL c (gl.BufferData gl.ARRAY_BUFFER quadCoords gl.STATIC_DRAW)) tt ].

(** [s.texture] after lines 85-91. *)
Definition setup_texture (p : gl.Program) (g : gl.State) : textureState :=
  let L := linker in
  {| program := p;
     pos := gl.attribLocation L g p "pos";
     mvp := gl.uniformLocation L g p "mvp";
     uvp := gl.uniformLocation L g p "uvp";
     inUV := gl.attribLocation L g p "inUV";
     sample := gl.uniformLocation L g p "sample";
     quad := gl.mkBuffer (gl.next_buffer g) |}.

(** The context after lines 91-94: a new buffer, bound to ARRAY_BUFFER and
    filled with [quadCoords]. *)
Definition setup_state (g : gl.State) : gl.State :=
  gl.mkState (gl.programs g) (gl.next_buffer g + 1)%N (gl.next_texture g)
    (gl.mkBuffer (gl.next_buffer g)) (gl.texture_2d g)
    (<[gl.next_buffer g := quadCoords]> (gl.buffers g)) (gl.textures g) (gl.draws g).

(** The calls of lines 99-108 from state [g], with their answers. *)
Definition alloc_trace (c : gl.Context) (size : image.Point) (g : gl.State)
    : list label :=
  let id := new_texture_id g in
  [ Lbl (GL c gl.CreateTexture) id;
    Lbl (GL c (gl.BindTexture gl.TEXTURE_2D id)) tt;
    Lbl (GL c (gl.TexImage2D gl.TEXTURE_2D 0 (image.X size) (image.Y size)
                 gl.RGBA gl.UNSIGNED_BYTE None)) tt;
    Lbl (GL c (gl.TexParameteri gl.TEXTURE_2D gl.TEXTURE_MAG_FILTER gl.LINEAR)) tt;
    Lbl (GL c (gl.TexParameteri gl.TEXTURE_2D gl.TEXTURE_MIN_FILTER gl.LINEAR)) tt;
    Lbl (GL c (gl.TexParameteri gl.TEXTURE_2D gl.TEXTURE_WRAP_S gl.CLAMP_TO_EDGE)) tt;
    Lbl (GL c (gl.TexParameteri gl.TEXTURE_2D gl.TEXTURE_WRAP_T gl.CLAMP_TO_EDGE)) tt ].

(** The context after lines 99-108: the effect of those calls on state [g]. *)
Definition alloc_state (size : image.Point) (g : gl.State) : gl.State :=
  gl.upd_bound (gl.set_param gl.TEXTURE_WRAP_T gl.CLAMP_TO_EDGE)
    (gl.upd_bound (gl.set_param gl.TEXTURE_WRAP_S gl.CLAMP_TO_EDGE)
       (gl.upd_bound (gl.set_param gl.TEXTURE_MIN_FILTER gl.LINEAR)
          (gl.upd_bound (gl.set_param gl.TEXTURE_MAG_FILTER gl.LINEAR)
             (gl.upd_bound (gl.set_size (image.X size) (image.Y size) gl.RGBA)
                (gl.set_texture_2d (new_texture_id g)
                   (gl.set_next_texture (gl.next_texture g + 1)%N g)))))).

(** The parameters lines 105-108 give a texture. *)
Definition texture_params (old : gmap Z Z) : gmap Z Z :=
  <[gl.TEXTURE_WRAP_T := gl.CLAMP_TO_EDGE]>
    (<[gl.TEXTURE_WRAP_S := gl.CLAMP_TO_EDGE]>
       (<[gl.TEXTURE_MIN_FILTER := gl.LINEAR]>
          (<[gl.TEXTURE_MAG_FILTER := gl.LINEAR]> old))).

(** The head of every trace of [NewTexture] that reaches line 76 with the
    window at [p]. *)
Definition find_trace (p : nat) (c : option gl.Context) : list label :=
  [ Lbl (Lock glMu) tt; Lbl RangeWindows (Some p); Lbl (LoadGlctx p) c ].

End Traces.

(** How many actions of a trace satisfy [f]. *)
Definition count (f : label → bool) (tr : list label) : nat :=
  length (List.filter f tr).

(** A texture object with linear filtering and edge-clamp wrapping. *)
Definition linear_clamped (o : gl.texobj) : Prop :=
  gl.tex_params o !! gl.TEXTURE_MAG_FILTER = Some gl.LINEAR
  ∧ gl.tex_params o !! gl.TEXTURE_MIN_FILTER = Some gl.LINEAR
  ∧ gl.tex_params o !! gl.TEXTURE_WRAP_S = Some gl.CLAMP_TO_EDGE
  ∧ gl.tex_params o !! gl.TEXTURE_WRAP_T = Some gl.CLAMP_TO_EDGE.

(** ** Concrete stores *)

(** A driver whose shaders compile, and one whose vertex shader is rejected. *)
Definition goodDriver : Driver := fakeDriver "attribute vec3 pos; void main() {}".
Definition badDriver : Driver := fakeDriver "".

(** The store after one [NewWindow] at program start: the window is
    registered, its [glctx] is still nil. *)
Definition world_one_window : World :=
  (run (D := goodDriver) (NewWindow (@None unit)) (world0 [])).1.2.

(** The same store once the window has been given the context 7. *)
Definition world_with_context : World := attach_glctx 4 7%nat world_one_window.

(** The window object of these stores, with its context. *)
Definition the_window : windowImpl :=
  mkWindowImpl theScreenPtr 4096 0 1 2 3 4097 (Some 7%nat).

(** ** Sequences of calls *)

Section Calls.
Context `{D : Driver}.

(** Calls made one after the other: for each, its trace, the store it
    leaves, and its result. *)
Fixpoint run_seq {A} (ms : list (Op A)) (w : World)
    : list (list label * World * option A) :=
  match ms with
  | [] => []
  | m :: rest => run m w :: run_seq rest (run m w).1.2
  end.

(** The store after [n] calls of [m] in a row. *)
Definition after_calls {A} (n : nat) (m : Op A) (w : World) : World :=
  Nat.iter n (λ w, (run m w).1.2) w.

(** The store after the calls of [ms], in that order. *)
Definition after_all {A} (ms : list (Op A)) (w : World) : World :=
  foldl (λ w m, (run m w).1.2) w ms.

(** The handle in [s.texture.program] names a program of context [c]. *)
Definition texture_program_valid (c : gl.Context) (w : World) : Prop :=
  gl.pValue (program (texture (theScreen w))) ∈ gl.programs (ctx_state w c).

(** Every window of the registry has the context [c]. *)
Definition same_context (c : gl.Context) (w : World) : Prop :=
  ∀ id p, windows (theScreen w) !! id = Some p →
          ∃ win, wheap w !! p = Some win ∧ glctx win = Some c.

(** What is assumed of [compileProgram]: a program returned with a nil error
    is a program of the context. *)
Definition compile_sound : Prop :=
  ∀ vSrc fSrc g pr g1,
    compileProgram vSrc fSrc g = ((pr, None), g1) → gl.pValue pr ∈ gl.programs g1.

(** The call returned a value and a nil error. *)
Definition returned_ok {A B} (r : option (option A * option B)) : Prop :=
  ∃ t, r = Some (Some t, None).

(** The trace has [IsProgram] answering true on context [c]. *)
Definition saw_valid_program (c : gl.Context) (tr : list label) : Prop :=
  ∃ p0, Lbl (GL c (gl.IsProgram p0)) true ∈ tr.

(** Successful compilations in the traces of a sequence of calls. *)
Definition compilations {A} (calls : list (list label * World * option A)) : nat :=
  sum_list_with (λ ci, count is_compiled ci.1.1) calls.

End Calls.

(** ** What [NewWindow] leaves behind *)

Section NewWindowResult.
Context `{D : Driver}.

(** The platform's answer to [newWindow(1024, 768)] in store [w]. *)
Definition new_id (w : World) : Z := newWindow (platform w) 1024 768.

(** The platform's answer to the [showWindow] that follows. *)
Definition new_ctx (w : World) : Z :=
  showWindow (newWindowCall 1024 768 :: platform w) (new_id w).

(** The [windowImpl] of lines 118-125: pump and channels at the next four
    locations, no [ctx], no [glctx]. *)
Definition new_window (w : World) : windowImpl :=
  let l := next_loc w in
  mkWindowImpl theScreenPtr (new_id w) l (S l) (S (S l)) (S (S (S l))) 0 None.

(** Where that object lives. *)
Definition new_window_ptr (w : World) : nat := S (S (S (S (next_loc w)))).

(** The channels of lines 122-124. *)
Definition new_chans (w : World) : gmap nat chan :=
  let l := next_loc w in
  <[S (S (S l)) := mkChan 0 0]>
    (<[S (S l) := mkChan 0 0]> (<[S l := mkChan 1 0]> (chans w))).

(** The store after line 129: the window is in the registry, [s.mu] is free
    again, [showWindow] has not been called. *)
Definition registered (w : World) : World :=
  mkWorld (glMu_locked w)
    (mkScreenImpl (texture (theScreen w)) (fill (theScreen w)) false
       (<[new_id w := new_window_ptr w]> (windows (theScreen w))))
    (<[new_window_ptr w := new_window w]> (wheap w))
    (new_chans w)
    (S (new_window_ptr w))
    (glctxs w) (rand w)
    (newWindowCall 1024 768 :: platform w)
    (goroutines w).

(** The store when [NewWindow] returns. *)
Definition after_NewWindow (w : World) : World :=
  mkWorld (glMu_locked w)
    (theScreen (registered w))
    (<[new_window_ptr w := set_ctx (new_ctx w) (new_window w)]> (wheap w))
    (new_chans w)
    (S (new_window_ptr w))
    (glctxs w) (rand w)
    (showWindowCall (new_id w) :: newWindowCall 1024 768 :: platform w)
    (drawLoop (new_window_ptr w) :: goroutines w).

(** The actions of [NewWindow] up to line 129, and those after. *)
Definition register_trace (w : World) : list label :=
  let l := next_loc w in
  [ Lbl (CallNewWindow 1024 768) (new_id w);
    Lbl PumpMake l;
    Lbl (MakeChan 1) (S l);
    Lbl (MakeChan 0) (S (S l));
    Lbl (MakeChan 0) (S (S (S l)));
    Lbl (AllocWindow (new_window w)) (new_window_ptr w);
    Lbl (Lock s_mu) tt;
    Lbl (StoreWindows (new_id w) (new_window_ptr w)) tt;
    Lbl (Unlock s_mu) tt ].

Definition attach_trace (w : World) : list label :=
  [ Lbl (CallShowWindow (new_id w)) (new_ctx w);
    Lbl (StoreCtx (new_window_ptr w) (new_ctx w)) tt;
    Lbl (Go (drawLoop (new_window_ptr w))) tt ].

End NewWindowResult.

(** A producer ([true]) or a consumer ([false]) of the publish signal of the
    window at [p]. *)
Definition publish_or_consume `{D : Driver} (p : nat) (b : bool) : Op bool :=
  if b then Publish p else ConsumePublish p.

(** The publish signals pending for the window at [p]. *)
Definition pending (w : World) (p : nat) : option nat :=
  win ← wheap w !! p; len <$> chans w !! publish win.

(** ** Goroutines *)

Section Concurrency.
Context `{D : Driver}.

(** Modelled from the spec: [Upload] is a method of [textureImpl] declared
    outside [screen.go].  Section 4.3: "upload(pixels, rect) and draw(...)
    must each run as one Context-Mutex-guarded sequence: bind texture, then
    (upload: replace sub-image; ...)". *)
Definition Upload (t : textureImpl) (x y width height : Z) (pixels : list Byte.byte)
    : Op unit :=
  act (Lock glMu) ;;
  defer (act (Unlock glMu))
    (act (GL (t_glctx t) (gl.BindTexture gl.TEXTURE_2D (t_id t))) ;;
     act (GL (t_glctx t)
            (gl.TexSubImage2D gl.TEXTURE_2D 0 x y width height
               gl.RGBA gl.UNSIGNED_BYTE pixels))).

(** Modelled from the spec: [Draw] is declared outside [screen.go].
    Section 4.3: "bind texture, then (...; draw: bind shared quad geometry, set
    transform/uv uniforms, bind texture to sampler, issue the draw call)", as
    one sequence under the Context Mutex.  The matrices are passed through
    as the bit patterns of their entries. *)
Definition Draw (t : textureImpl) (transform uv : list Z) : Op unit :=
  act (Lock glMu) ;;
  defer (act (Unlock glMu))
    (act (GL (t_glctx t) (gl.BindTexture gl.TEXTURE_2D (t_id t))) ;;
     q ← act (LoadTex Fquad);
     act (GL (t_glctx t) (gl.BindBuffer gl.ARRAY_BUFFER q)) ;;
     m ← act (LoadTex Fmvp);
     act (GL (t_glctx t) (gl.UniformMatrix3fv m transform)) ;;
     u ← act (LoadTex Fuvp);
     act (GL (t_glctx t) (gl.UniformMatrix3fv u uv)) ;;
     sm ← act (LoadTex Fsample);
     act (GL (t_glctx t) (gl.Uniform1i sm 0)) ;;
     act (GL (t_glctx t) (gl.DrawArrays gl.TRIANGLE_STRIP 0 4))).

(** The operations that goroutines run concurrently. *)
Inductive operation : Type :=
| opNewTexture (size : image.Point)
| opUpload (t : textureImpl) (x y width height : Z) (pixels : list Byte.byte)
| opDraw (t : textureImpl) (transform uv : list Z).

(** What an operation returns. *)
Inductive result : Type :=
| texture_result (r : option textureImpl * option error)
| no_result.

Definition code (o : operation) : Op result :=
  match o with
  | opNewTexture size => r ← NewTexture size; mret (texture_result r)
  | opUpload t x y width height pixels =>
      Upload t x y width height pixels ;; mret no_result
  | opDraw t transform uv => Draw t transform uv ;; mret no_result
  end.

(** One action of goroutine [t] of a pool, on the shared store.  A goroutine
    whose next action cannot proceed (a [Lock] of a locked mutex) does not
    move. *)
Inductive pstep {A} : list (Op A) * World → nat * label → list (Op A) * World → Prop :=
| pstep_at ts w t m l m' w' :
    ts !! t = Some m →
    step (m, w) l (m', w') →
    pstep (ts, w) (t, l) (<[t := m']> ts, w').

(** An interleaving: any goroutine moves at any time.  The trace tells which
    goroutine did what, in the order of the actions; it grows at the end. *)
Inductive psteps {A} : list (Op A) * World → list (nat * label)
    → list (Op A) * World → Prop :=
| psteps_nil st : psteps st [] st
| psteps_snoc st1 tr st2 x st3 :
    psteps st1 tr st2 → pstep st2 x st3 → psteps st1 (tr ++ [x]) st3.

(** The actions of a trace, attributed to goroutine [t]. *)
Definition tag (t : nat) (tr : list label) : list (nat * label) :=
  (λ l, (t, l)) <$> tr.

(** The goroutines of [order] run one after the other, each to its end before
    the next starts: the store reached, the trace, and what each returned.
    [None] if one of them does not run to its end. *)
Fixpoint serial {A} (ts : list (Op A)) (order : list nat) (w : World)
    : option (World * list (nat * label) * list (nat * A)) :=
  match order with
  | [] => Some (w, [], [])
  | t :: rest =>
      m ← ts !! t;
      match run m w with
      | (tr, w1, Some a) =>
          '(w2, tr2, rs) ← serial ts rest w1;
          Some (w2, tag t tr ++ tr2, (t, a) :: rs)
      | _ => None
      end
  end.

Definition is_lock_glMu {R} (e : Event R) : bool :=
  match e with
  | Lock glMu => true
  | _ => false
  end.

Definition is_unlock_glMu {R} (e : Event R) : bool :=
  match e with
  | Unlock glMu => true
  | _ => false
  end.

(** A program inside its critical section: it never locks [glMu] again, and
    every path ends with the [Unlock] of [glMu] followed by the return. *)
Fixpoint critical {A} (m : Op A) : Prop :=
  match m with
  | Ret _ => False
  | Vis e k =>
      if is_unlock_glMu e then ∀ r, ∃ a, k r = Ret a
      else if is_lock_glMu e then False
      else ∀ r, critical (k r)
  end.

(** A program that is one critical section: its first action locks [glMu],
    and all the others, the calls on the GPU among them, come before the
    unlock that ends it. *)
Definition atomic {A} (m : Op A) : Prop :=
  match m with
  | Ret _ => False
  | Vis e k => is_lock_glMu e = true ∧ ∀ r, critical (k r)
  end.

(** The state of an interleaving, seen from the pool [ts0] and store [w0] it
    started from: the goroutines of [order] have run whole, one after the
    other; then either nobody holds [glMu], or one more goroutine [t] is in
    its critical section and has done [pre] so far. *)
Definition serialized {A} (ts0 : list (Op A)) (w0 : World)
    (ts : list (Op A)) (w : World) (tr : list (nat * label)) : Prop :=
  ∃ order ws trs rs,
    NoDup order
    ∧ serial ts0 order w0 = Some (ws, trs, rs)
    ∧ length ts = length ts0
    ∧ (∀ t a, (t, a) ∈ rs → ts !! t = Some (Ret a))
    ∧ (∀ t, t ∈ order ↔ ∃ a, (t, a) ∈ rs)
    ∧ ( (glMu_locked w = false ∧ w = ws ∧ tr = trs
         ∧ ∀ t, t ∉ order → ts !! t = ts0 !! t)
        ∨ (∃ t m0 m pre,
             glMu_locked w = true ∧ (t ∉ order)
             ∧ ts0 !! t = Some m0 ∧ ts !! t = Some m ∧ critical m
             ∧ steps (m0, ws) pre (m, w)
             ∧ tr = trs ++ tag t pre
             ∧ ∀ t', t' ∉ order → t' ≠ t → ts !! t' = ts0 !! t') ).

End Concurrency.

(** Between two actions of one goroutine there are only actions of that
    goroutine. *)
Definition uninterrupted (tr : list (nat * label)) : Prop :=
  ∀ i j k t la lb x,
    (i < j < k)%nat →
    tr !! i = Some (t, la) → tr !! k = Some (t, lb) → tr !! j = Some x →
    x.1 = t.

(** Traces of whole goroutines, one after the other. *)
Definition flatten (bs : list (nat * list label)) : list (nat * label) :=
  concat ((λ b, tag b.1 b.2) <$> bs).

(** The actions on the GPU in the trace of an interleaving. *)
Definition gpu_trace (tr : list (nat * label)) : list (nat * label) :=
  List.filter (λ x, is_gpu x.2) tr.

(** Two goroutines: an upload into a texture of context 7, and a texture
    creation. *)
Definition demo_ops : list operation :=
  [ opUpload (mkTextureImpl 7%nat (gl.mkTexture 1) (image.mkPoint 2 2)) 0 0 1 1
      [Byte.xff; Byte.x00; Byte.x00; Byte.xff];
    opNewTexture (image.mkPoint 8 8) ].

(** ** Well-formed stores *)

(** Every entry of the registry points to a window object. *)
Definition registry_ok (w : World) : Prop :=
  ∀ id p, windows (theScreen w) !! id = Some p → is_Some (wheap w !! p).

(** Every entry of the registry points to a window object that carries the
    entry's key as its [id]. *)
Definition registry_consistent (w : World) : Prop :=
  ∀ id p, windows (theScreen w) !! id = Some p →
          ∃ win, wheap w !! p = Some win ∧ w_id win = id.

(** The allocator is ahead of every object in use. *)
Definition heap_ok (w : World) : Prop :=
  ∀ l, is_Some (wheap w !! l) ∨ is_Some (chans w !! l) → (l < next_loc w)%nat.

(** No window object has a GL context. *)
Definition no_glctx (w : World) : Prop :=
  ∀ p win, wheap w !! p = Some win → glctx win = None.

(** The context of the window that the loop of line 72 visits first, if
    there is such a window and it has one. *)
Definition picked_glctx (w : World) : option gl.Context :=
  '(_, p) ← range_first (hd 0%nat (rand w)) (windows (theScreen w));
  win ← wheap w !! p;
  glctx win.

(** No action of the program, on any path, satisfies [bad]. *)
Fixpoint never {A} (bad : label → bool) (m : Op A) : Prop :=
  match m with
  | Ret _ => True
  | Vis e k => ∀ r, bad (Lbl e r) = false ∧ never bad (k r)
  end.

Definition is_glMu (l : label) : bool :=
  match l with
  | Lbl (Lock glMu) _ => true
  | Lbl (Unlock glMu) _ => true
  | _ => false
  end.

Definition is_s_mu (l : label) : bool :=
  match l with
  | Lbl (Lock s_mu) _ => true
  | Lbl (Unlock s_mu) _ => true
  | _ => false
  end.

(** Actions that write to the registry or to a window object. *)
Definition is_window_write (l : label) : bool :=
  match l with
  | Lbl (AllocWindow _) _ => true
  | Lbl (StoreWindows _ _) _ => true
  | Lbl (StoreCtx _ _) _ => true
  | _ => false
  end.

(** ** Calls of the two stateful methods, in any order *)

Inductive api_call : Type :=
| apiNewWindow
| apiNewTexture (size : image.Point).

Inductive api_result : Type :=
| ret_window (r : option nat * option error)
| ret_texture (r : option textureImpl * option error).

Definition api_code `{D : Driver} (c : api_call) : Op api_result :=
  match c with
  | apiNewWindow => r ← NewWindow (@None unit); mret (ret_window r)
  | apiNewTexture size => r ← NewTexture size; mret (ret_texture r)
  end.



(** All the goroutines of the pool have returned. *)
Definition finished {A} (ts : list (Op A)) : Prop :=
  ∀ m, m ∈ ts → ∃ a, m = Ret a.

(** ** Stores with two windows *)

(** The store after two [NewWindow] at program start, the first window
    having been given the context 7: the second has none. *)
Definition world_two_windows : World :=
  attach_glctx 4 7%nat
    (run (D := goodDriver) (NewWindow (@None unit)) world_one_window).1.2.


(** ** More readers of traces and results *)

(** The context an action on the GPU is made on. *)
Definition context_of (l : label) : option gl.Context :=
  match l with
  | Lbl (CompileProgram c _ _) _ => Some c
  | Lbl (GL c _) _ => Some c
  | _ => None
  end.

(** The first component of the result is not nil. *)
Definition got_value {A B} (r : option A * B) : bool :=
  match r.1 with Some _ => true | None => false end.

(** The store between two calls of the API, as long as no window has been
    given a GL context: both mutexes free, the allocator ahead, the registry
    consistent. *)
Definition api_inv (w : World) : Prop :=
  glMu_locked w = false ∧ mu (theScreen w) = false
  ∧ heap_ok w ∧ registry_consistent w ∧ no_glctx w.

Definition is_new_window (c : api_call) : bool :=
  match c with
  | apiNewWindow => true
  | apiNewTexture _ => false
  end.


(** ** Programs that run to their end *)

(** From every store that satisfies [I], the program returns and leaves a
    store that satisfies [I]. *)
Definition always_returns `{D : Driver} {A} (I : World → Prop) (m : Op A) : Prop :=
  ∀ w, I w → ∃ tr w' a, run m w = (tr, w', Some a) ∧ I w'.

(** A goroutine that has returned, or one that has not started and will
    return. *)
Definition returned_or_ready `{D : Driver} {A} (I : World → Prop) (m : Op A) : Prop :=
  (∃ a, m = Ret a) ∨ always_returns I m.

(** The stores in which [NewTexture] can be called. *)
Definition texture_ready (w : World) : Prop :=
  glMu_locked w = false ∧ registry_ok w.

(** A platform that answers every [newWindow] with the same id. *)
Definition sameIdDriver : Driver :=
  mkDriver fake_linker fake_compile "attribute vec3 pos; void main() {}"
    "void main() {}" [Byte.x00; Byte.x01] (λ _ _ _, 4096) (λ h id, id + 1).

(** The store after one [NewWindow] on that platform. *)
Definition world_same_id : World :=
  (run (D := sameIdDriver) (NewWindow (@None unit)) (world0 [])).1.2.

(** ** Calls of [screen.go] among steps of other code *)

(** The window object at [p] has the GL context [c]. *)
Definition has_glctx (w : World) (p : nat) (c : gl.Context) : Prop :=
  ∃ win, wheap w !! p = Some win ∧ glctx win = Some c.

(** The store in which the API can be called: both mutexes free, the
    allocator ahead, the registry consistent.  Nothing is said of the
    contexts of the windows. *)
Definition api_ready (w : World) : Prop :=
  glMu_locked w = false ∧ mu (theScreen w) = false
  ∧ heap_ok w ∧ registry_consistent w.

(** What a program does with the screen: a call of [NewWindow] or
    [NewTexture], or a step of code outside [screen.go] (a [drawLoop]
    goroutine, the platform layer, another method of the package), which may
    change the store in any way. *)
Inductive api_event : Type :=
| by_call (c : api_call)
| by_others (f : World → World).

(** The calls made in a run of events, each with the store it was made in
    and its execution. *)
Fixpoint run_events `{D : Driver} (es : list api_event) (w : World)
    : list (api_call * World * (list label * World * option api_result)) :=
  match es with
  | [] => []
  | by_call c :: rest =>
      (c, w, run (api_code c) w) :: run_events rest (run (api_code c) w).1.2
  | by_others f :: rest => run_events rest (f w)
  end.

(** The store after a run of events. *)
Fixpoint after_events `{D : Driver} (es : list api_event) (w : World) : World :=
  match es with
  | [] => w
  | by_call c :: rest => after_events rest (run (api_code c) w).1.2
  | by_others f :: rest => after_events rest (f w)
  end.

(** The steps of other code keep [I]. *)
Definition others_keep (I : World → Prop) (e : api_event) : Prop :=
  match e with
  | by_call _ => True
  | by_others f => ∀ w, I w → I (f w)
  end.

Definition is_go (l : label) : bool :=
  match l with
  | Lbl (Go _) _ => true
  | _ => false
  end.

Definition is_platform (l : label) : bool :=
  match l with
  | Lbl (CallNewWindow _ _) _ => true
  | Lbl (CallShowWindow _) _ => true
  | _ => false
  end.

(** The memory of a linux/amd64 process that can still obtain [free] bytes. *)
Definition linux_amd64 (free : Z) : Memory := mkMemory (2 ^ 48) free.
(** * Properties *)

(** ** [NewBuffer] *)

Lemma int_wrap_small z : -2 ^ 63 ≤ z < 2 ^ 63 → int_wrap z = z.
Proof.
  intros Hz. unfold int_wrap.
  rewrite Z.mod_small by lia. lia.
Qed.

Lemma Mul64_small x y :
  0 ≤ x * y < 2 ^ 64 → image.Mul64 x y = (0, x * y).
Proof.
  intros H. unfold image.Mul64.
  by rewrite Z.div_small, Z.mod_small.
Qed.

Lemma mul3NonNeg_exact x y z :
  0 ≤ x → 0 ≤ y → 0 ≤ z → x * y < 2 ^ 64 → x * y * z < 2 ^ 63 →
  image.mul3NonNeg x y z = x * y * z.
Proof.
  intros Hx Hy Hz Hxy Hxyz. unfold image.mul3NonNeg.
  assert (0 ≤ x * y) by lia.
  assert (0 ≤ x * y * z) by lia.
  replace (x <? 0) with false by (symmetry; apply Z.ltb_ge; lia).
  replace (y <? 0) with false by (symmetry; apply Z.ltb_ge; lia).
  replace (z <? 0) with false by (symmetry; apply Z.ltb_ge; lia).
  cbn [orb]. rewrite Mul64_small by lia. cbn [negb Z.eqb].
  rewrite Mul64_small by lia. cbn [negb Z.eqb].
  rewrite int_wrap_small by lia.
  replace (x * y * z <? 0) with false by (symmetry; apply Z.ltb_ge; lia).
  rewrite Z.mod_small by lia. by rewrite Z.eqb_refl.
Qed.

Lemma mul3NonNeg_negative x y z :
  x < 0 ∨ y < 0 ∨ z < 0 → image.mul3NonNeg x y z = -1.
Proof.
  intros H. unfold image.mul3NonNeg.
  destruct (x <? 0) eqn:Ex; [done|].
  destruct (y <? 0) eqn:Ey; [done|].
  destruct (z <? 0) eqn:Ez; [done|].
  apply Z.ltb_ge in Ex, Ey, Ez. lia.
Qed.

(** The shape of every result of [NewBuffer]: whenever it returns, the error
    is nil and the buffer records the requested size. *)
Lemma NewBuffer_returns mem size r :
  NewBuffer mem size = Returns r →
  snd r = None ∧
  ∃ b, fst r = Some b ∧ b_size b = size ∧
       image.Rect (rgba b) = image.mkRectangle image.ZP size.
Proof.
  unfold NewBuffer, image.NewRGBA.
  destruct (image.pixelBufferLength _ _ _) as [n|msg|msg]; [|done..].
  destruct (make_bytes mem n) as [pix|msg|msg]; [|done..].
  intros [= <-]; cbn. split; [done|]. by eexists.
Qed.

(** A size with a negative coordinate makes [image.NewRGBA] panic, whatever
    memory there is. *)
Example NewBuffer_negative_width mem :
  NewBuffer mem (image.mkPoint (-1) 1)
  = Panics "image: NewRGBA Rectangle has huge or negative dimensions".
Proof. reflexivity. Qed.

(** A buffer of 2^30 x 2^30 pixels is beyond what the runtime allocates. *)
Example NewBuffer_beyond_maxAlloc free :
  NewBuffer (linux_amd64 free) (image.mkPoint (2 ^ 30) (2 ^ 30))
  = Panics "runtime error: makeslice: len out of range".
Proof. reflexivity. Qed.

(** A buffer of 2^20 x 2^20 pixels takes 4 TiB; with 64 GiB to be had the
    process ends. *)
Example NewBuffer_out_of_memory :
  NewBuffer (linux_amd64 (2 ^ 36)) (image.mkPoint (2 ^ 20) (2 ^ 20))
  = Aborts "fatal error: runtime: out of memory".
Proof. reflexivity. Qed.

(** C6, as stated, fails: with no memory, however large, does [NewBuffer]
    return a buffer for every size.  At the size (-1, 1) the call panics
    inside [image.NewRGBA] and returns nothing. *)
Lemma C6_NewBuffer_not_total :
  ¬ (∃ mem, ∀ size : image.Point,
       ∃ b, NewBuffer mem size = Returns (Some b, None)
            ∧ image.Dx (image.Rect (rgba b)) = image.X size
            ∧ image.Dy (image.Rect (rgba b)) = image.Y size).
Proof.
  intros [mem H]. destruct (H (image.mkPoint (-1) 1)) as (b & Hb & _).
  rewrite NewBuffer_negative_width in Hb. discriminate.
Qed.

(** C6, amended: [NewBuffer] never returns an error: whenever it returns, the
    error is nil and the buffer records the requested size and has the bounds
    (0,0)-(X,Y).  It does return for every size whose coordinates are
    non-negative, whose byte count 4*X*Y fits in an [int] (0 <= X < 2^62,
    0 <= Y < 2^63, 4*X*Y < 2^63), is within the largest allocation the
    runtime accepts and can be obtained from the system: the pixel store
    then has width X, height Y and 4*X*Y bytes.  No GL context and no part
    of the store is involved: [NewBuffer] is a function of [size] and of the
    memory to be had. *)
Theorem C6_NewBuffer_ok (mem : Memory) (size : image.Point) :
  (∀ r, NewBuffer mem size = Returns r →
        r.2 = None
        ∧ ∃ b, r.1 = Some b ∧ b_size b = size
               ∧ image.Rect (rgba b) = image.mkRectangle image.ZP size)
  ∧ (0 ≤ image.X size < 2 ^ 62 →
     0 ≤ image.Y size < 2 ^ 63 →
     4 * image.X size * image.Y size < 2 ^ 63 →
     4 * image.X size * image.Y size ≤ maxAlloc mem →
     4 * image.X size * image.Y size ≤ free_bytes mem →
     ∃ b, NewBuffer mem size = Returns (Some b, None)
          ∧ b_size b = size
          ∧ image.Rect (rgba b) = image.mkRectangle image.ZP size
          ∧ image.Dx (image.Rect (rgba b)) = image.X size
          ∧ image.Dy (image.Rect (rgba b)) = image.Y size
          ∧ Z.of_nat (length (image.Pix (rgba b))) = 4 * image.X size * image.Y size
          ∧ image.Stride (rgba b) = int_wrap (4 * image.X size)).
Proof.
  split; [apply NewBuffer_returns|].
  intros HX HY Hn Hmax Hfree. destruct size as [x y]; cbn in *.
  unfold NewBuffer, image.NewRGBA, image.pixelBufferLength.
  assert (HDx : image.Dx (image.mkRectangle image.ZP (image.mkPoint x y)) = x).
  { unfold image.Dx; cbn. rewrite Z.sub_0_r. apply int_wrap_small. lia. }
  assert (HDy : image.Dy (image.mkRectangle image.ZP (image.mkPoint x y)) = y).
  { unfold image.Dy; cbn. rewrite Z.sub_0_r. apply int_wrap_small. lia. }
  rewrite HDx, HDy.
  rewrite mul3NonNeg_exact by lia.
  replace (4 * x * y <? 0) with false by (symmetry; apply Z.ltb_ge; nia).
  unfold make_bytes.
  replace (4 * x * y <? 0) with false by (symmetry; apply Z.ltb_ge; nia).
  replace (maxAlloc mem <? 4 * x * y) with false by (symmetry; apply Z.ltb_ge; lia).
  replace (free_bytes mem <? 4 * x * y) with false by (symmetry; apply Z.ltb_ge; lia).
  cbn [orb].
  eexists; split; [reflexivity|]. cbn.
  rewrite HDx, HDy. repeat split.
  rewrite repeat_length. rewrite Z2Nat.id; [done|nia].
Qed.

Lemma C6_NewBuffer_ok_witness :
  (∀ r, NewBuffer (linux_amd64 (2 ^ 30)) (image.mkPoint 2 1) = Returns r →
        r.2 = None
        ∧ ∃ b, r.1 = Some b ∧ b_size b = image.mkPoint 2 1
               ∧ image.Rect (rgba b)
                 = image.mkRectangle image.ZP (image.mkPoint 2 1))
  ∧ ∃ b, NewBuffer (linux_amd64 (2 ^ 30)) (image.mkPoint 2 1) = Returns (Some b, None)
         ∧ b_size b = image.mkPoint 2 1
         ∧ image.Rect (rgba b) = image.mkRectangle image.ZP (image.mkPoint 2 1)
         ∧ image.Dx (image.Rect (rgba b)) = 2
         ∧ image.Dy (image.Rect (rgba b)) = 1
         ∧ Z.of_nat (length (image.Pix (rgba b))) = 4 * 2 * 1
         ∧ image.Stride (rgba b) = int_wrap (4 * 2).
Proof.
  destruct (C6_NewBuffer_ok (linux_amd64 (2 ^ 30)) (image.mkPoint 2 1)) as [Hret Hok].
  split; [exact Hret|]. apply Hok; cbn; lia.
Defined.

(** ** Iteration over the registry *)

Lemma range_first_empty {V} seed : range_first seed (∅ : gmap Z V) = None.
Proof. unfold range_first. by rewrite map_to_list_empty. Qed.

Lemma range_first_Some {V} seed (m : gmap Z V) k v :
  range_first seed m = Some (k, v) → m !! k = Some v.
Proof.
  unfold range_first. intros H.
  apply elem_of_map_to_list. eapply list_elem_of_lookup_2, H.
Qed.

Lemma range_first_nonempty {V} seed (m : gmap Z V) :
  m ≠ ∅ → is_Some (range_first seed m).
Proof.
  intros Hm. unfold range_first. apply lookup_lt_is_Some.
  apply Nat.mod_upper_bound. intros Hl.
  apply Hm, map_to_list_empty_iff. by apply nil_length_inv.
Qed.

(** Every entry of the registry is the first one for some seed. *)
Lemma range_first_any {V} (m : gmap Z V) k v :
  m !! k = Some v → ∃ seed, range_first seed m = Some (k, v).
Proof.
  intros H. apply elem_of_map_to_list, list_elem_of_lookup in H as [i Hi].
  exists i. unfold range_first.
  rewrite Nat.mod_small; [done|]. by eapply lookup_lt_Some.
Qed.

(** ** The store, up to the order of independent updates *)

Lemma ctx_state_put_ctx c g w : ctx_state (put_ctx c g w) c = g.
Proof. unfold ctx_state, put_ctx. cbn. by rewrite lookup_insert_eq. Qed.

Lemma put_ctx_put_ctx c g1 g2 w : put_ctx c g2 (put_ctx c g1 w) = put_ctx c g2 w.
Proof. unfold put_ctx. cbn. by rewrite insert_insert_eq. Qed.

Lemma ctx_state_set_glMu b w c : ctx_state (set_glMu b w) c = ctx_state w c.
Proof. reflexivity. Qed.
Lemma ctx_state_set_rand r w c : ctx_state (set_rand r w) c = ctx_state w c.
Proof. reflexivity. Qed.
Lemma ctx_state_set_theScreen sc w c : ctx_state (set_theScreen sc w) c = ctx_state w c.
Proof. reflexivity. Qed.

Lemma set_rand_set_glMu r b w : set_rand r (set_glMu b w) = set_glMu b (set_rand r w).
Proof. reflexivity. Qed.
Lemma put_ctx_set_glMu c g b w : put_ctx c g (set_glMu b w) = set_glMu b (put_ctx c g w).
Proof. reflexivity. Qed.
Lemma set_theScreen_set_glMu sc b w :
  set_theScreen sc (set_glMu b w) = set_glMu b (set_theScreen sc w).
Proof. reflexivity. Qed.
Lemma put_ctx_set_theScreen c g sc w :
  put_ctx c g (set_theScreen sc w) = set_theScreen sc (put_ctx c g w).
Proof. reflexivity. Qed.
Lemma set_theScreen_set_theScreen sc1 sc2 w :
  set_theScreen sc2 (set_theScreen sc1 w) = set_theScreen sc2 w.
Proof. reflexivity. Qed.
Lemma set_glMu_set_glMu b1 b2 w : set_glMu b2 (set_glMu b1 w) = set_glMu b2 w.
Proof. reflexivity. Qed.
Lemma set_texture_set_texture t1 t2 sc :
  set_texture t2 (set_texture t1 sc) = set_texture t2 sc.
Proof. reflexivity. Qed.

Lemma theScreen_set_glMu b w : theScreen (set_glMu b w) = theScreen w.
Proof. reflexivity. Qed.
Lemma theScreen_set_rand r w : theScreen (set_rand r w) = theScreen w.
Proof. reflexivity. Qed.
Lemma theScreen_put_ctx c g w : theScreen (put_ctx c g w) = theScreen w.
Proof. reflexivity. Qed.
Lemma theScreen_set_theScreen sc w : theScreen (set_theScreen sc w) = sc.
Proof. reflexivity. Qed.
Lemma texture_set_texture t sc : texture (set_texture t sc) = t.
Proof. reflexivity. Qed.
Lemma rand_set_glMu b w : rand (set_glMu b w) = rand w.
Proof. reflexivity. Qed.
Lemma wheap_set_glMu b w : wheap (set_glMu b w) = wheap w.
Proof. reflexivity. Qed.
Lemma wheap_set_rand r w : wheap (set_rand r w) = wheap w.
Proof. reflexivity. Qed.
Lemma wheap_put_ctx c g w : wheap (put_ctx c g w) = wheap w.
Proof. reflexivity. Qed.
Lemma wheap_set_theScreen sc w : wheap (set_theScreen sc w) = wheap w.
Proof. reflexivity. Qed.

Create Rewrite HintDb world.

#[local] Hint Rewrite
  ctx_state_put_ctx put_ctx_put_ctx ctx_state_set_glMu ctx_state_set_rand
  ctx_state_set_theScreen set_rand_set_glMu put_ctx_set_glMu
  set_theScreen_set_glMu put_ctx_set_theScreen set_theScreen_set_theScreen
  set_glMu_set_glMu set_texture_set_texture theScreen_set_glMu theScreen_set_rand
  theScreen_put_ctx theScreen_set_theScreen texture_set_texture rand_set_glMu
  wheap_set_glMu wheap_set_rand wheap_put_ctx wheap_set_theScreen : world.


(** ** The context after [NewTexture]'s calls *)

Lemma programs_alloc_state size g :
  gl.programs (alloc_state size g) = gl.programs g.
Proof. reflexivity. Qed.

Lemma programs_setup_state `{D : Driver} g :
  gl.programs (setup_state g) = gl.programs g.
Proof. reflexivity. Qed.

Lemma texture_2d_alloc_state size g :
  gl.texture_2d (alloc_state size g) = new_texture_id g.
Proof. reflexivity. Qed.

Lemma upd_bound_lookup f g :
  gl.textures (gl.upd_bound f g) !! gl.tValue (gl.texture_2d g)
  = Some (f (default gl.texobj0 (gl.textures g !! gl.tValue (gl.texture_2d g)))).
Proof. unfold gl.upd_bound. cbn. by rewrite lookup_insert_eq. Qed.

Lemma texture_2d_upd_bound f g :
  gl.texture_2d (gl.upd_bound f g) = gl.texture_2d g.
Proof. reflexivity. Qed.

(** The texture object that lines 99-108 leave behind. *)
Lemma textures_alloc_state size g :
  gl.textures (alloc_state size g) !! gl.tValue (new_texture_id g)
  = Some (gl.mkTexobj (image.X size) (image.Y size) gl.RGBA
            (texture_params
               (gl.tex_params
                  (default gl.texobj0 (gl.textures g !! gl.next_texture g))))).
Proof.
  unfold alloc_state.
  set (g0 := gl.set_texture_2d _ _).
  change (gl.tValue (new_texture_id g)) with (gl.tValue (gl.texture_2d g0)).
  set (g1 := gl.upd_bound _ g0).
  set (g2 := gl.upd_bound _ g1).
  set (g3 := gl.upd_bound _ g2).
  set (g4 := gl.upd_bound _ g3).
  change (gl.texture_2d g0) with (gl.texture_2d g4).
  rewrite upd_bound_lookup. subst g4.
  rewrite texture_2d_upd_bound, upd_bound_lookup. subst g3.
  rewrite texture_2d_upd_bound, upd_bound_lookup. subst g2.
  rewrite texture_2d_upd_bound, upd_bound_lookup. subst g1.
  rewrite texture_2d_upd_bound, upd_bound_lookup. subst g0.
  reflexivity.
Qed.

Lemma texture_params_lookup old :
  texture_params old !! gl.TEXTURE_MAG_FILTER = Some gl.LINEAR
  ∧ texture_params old !! gl.TEXTURE_MIN_FILTER = Some gl.LINEAR
  ∧ texture_params old !! gl.TEXTURE_WRAP_S = Some gl.CLAMP_TO_EDGE
  ∧ texture_params old !! gl.TEXTURE_WRAP_T = Some gl.CLAMP_TO_EDGE.
Proof.
  unfold texture_params. repeat split.
  - rewrite !lookup_insert_ne by done. apply lookup_insert_eq.
  - rewrite !lookup_insert_ne by done. apply lookup_insert_eq.
  - rewrite lookup_insert_ne by done. apply lookup_insert_eq.
  - apply lookup_insert_eq.
Qed.

(** ** Sequential execution *)

Section SeqProps.
Context `{D : Driver}.

Lemma run_bind {A B} (m : Op A) (f : A → Op B) w :
  run (m ≫= f) w =
  (let '(tr1, w1, a) := run m w in
   match a with
   | None => (tr1, w1, None)
   | Some a =>
       let '(tr2, w2, b) := run (f a) w1 in (tr1 ++ tr2, w2, b)
   end).
Proof.
  revert w. induction m as [a|R e k IH]; intros w.
  - cbn. by destruct (run (f a) w) as [[tr2 w2] b].
  - change (Vis e k ≫= f) with (Vis e (λ r, k r ≫= f)). cbn.
    destruct (handle e w) as [[r w']|]; [|done].
    rewrite IH. destruct (run (k r) w') as [[tr1 w1] [a|]]; [|done].
    by destruct (run (f a) w1) as [[tr2 w2] b].
Qed.

Lemma run_handled {A R} (e : Event R) (k : R → Op A) w r w' :
  handle e w = Some (r, w') →
  run (Vis e k) w = prepend (Lbl e r) (run (k r) w').
Proof.
  intros H. cbn [run]. rewrite H. by destruct (run (k r) w') as [[??]?].
Qed.

Lemma run_Ret {A} (a : A) w : run (Ret a) w = ([], w, Some a).
Proof. reflexivity. Qed.

(** *** One action at a time *)

Lemma run_GL {A} c call (k : gl.res call → Op A) w :
  run (Vis (GL c call) k) w
  = prepend (Lbl (GL c call) (gl.exec linker call (ctx_state w c)).1)
      (run (k (gl.exec linker call (ctx_state w c)).1)
         (put_ctx c (gl.exec linker call (ctx_state w c)).2 w)).
Proof. apply run_handled. cbn. by destruct (gl.exec _ _ _). Qed.

Lemma run_CompileProgram {A} c vSrc fSrc (k : _ → Op A) w r g :
  compileProgram vSrc fSrc (ctx_state w c) = (r, g) →
  run (Vis (CompileProgram c vSrc fSrc) k) w
  = prepend (Lbl (CompileProgram c vSrc fSrc) r) (run (k r) (put_ctx c g w)).
Proof. intros H. apply run_handled. cbn. by rewrite H. Qed.

Lemma run_Lock_glMu {A} (k : unit → Op A) w :
  glMu_locked w = false →
  run (Vis (Lock glMu) k) w
  = prepend (Lbl (Lock glMu) tt) (run (k tt) (set_glMu true w)).
Proof. intros H. apply run_handled. cbn. by rewrite H. Qed.

Lemma run_Unlock_glMu {A} (k : unit → Op A) w :
  run (Vis (Unlock glMu) k) (set_glMu true w)
  = prepend (Lbl (Unlock glMu) tt) (run (k tt) (set_glMu false w)).
Proof. by apply run_handled. Qed.

Lemma run_RangeWindows {A} (k : option nat → Op A) w :
  run (Vis RangeWindows k) w
  = prepend
      (Lbl RangeWindows
         (snd <$> range_first (hd 0%nat (rand w)) (windows (theScreen w))))
      (run (k (snd <$> range_first (hd 0%nat (rand w)) (windows (theScreen w))))
         (set_rand (tl (rand w)) w)).
Proof. by apply run_handled. Qed.

Lemma run_LoadGlctx {A} p win (k : option gl.Context → Op A) w :
  wheap w !! p = Some win →
  run (Vis (LoadGlctx p) k) w
  = prepend (Lbl (LoadGlctx p) (glctx win)) (run (k (glctx win)) w).
Proof. intros H. apply run_handled. cbn. by rewrite H. Qed.

Lemma run_LoadTex {A T} (f : texfield T) (k : T → Op A) w :
  run (Vis (LoadTex f) k) w
  = prepend (Lbl (LoadTex f) (tex_get f (texture (theScreen w))))
      (run (k (tex_get f (texture (theScreen w)))) w).
Proof. by apply run_handled. Qed.

Lemma run_StoreTex {A T} (f : texfield T) (v : T) (k : unit → Op A) w :
  run (Vis (StoreTex f v) k) w
  = prepend (Lbl (StoreTex f v) tt)
      (run (k tt)
         (set_theScreen
            (set_texture (tex_set f v (texture (theScreen w))) (theScreen w)) w)).
Proof. by apply run_handled. Qed.

Ltac flatten_prog :=
  unfold act; cbn [mbind Op_bind bind mret Op_ret].

Ltac wnorm := autorewrite with world.

Ltac gl_step :=
  rewrite run_GL; wnorm; cbn [gl.exec fst snd];
  rewrite ?Z.eqb_refl; cbn [andb]; wnorm.

Ltac mem_step :=
  first [ rewrite run_LoadTex | rewrite run_StoreTex ];
  wnorm; cbn [tex_get tex_set program pos mvp uvp inUV sample quad]; wnorm.

Arguments range_first : simpl never.

Ltac red_run :=
  rewrite ?run_Ret; cbn [prepend fst snd app]; cbv beta iota zeta.

Lemma set_glMu_id b w : glMu_locked w = b → set_glMu b w = w.
Proof. intros <-. by destruct w. Qed.

(** *** The blocks of [NewTexture] *)

Lemma run_find_glctx w id p win :
  visits w id p → wheap w !! p = Some win →
  run find_glctx w
  = ([Lbl RangeWindows (Some p); Lbl (LoadGlctx p) (glctx win)],
     set_rand (tl (rand w)) w, Some (glctx win)).
Proof.
  intros Hv Hp. unfold visits in Hv. unfold find_glctx. flatten_prog.
  rewrite run_RangeWindows, Hv. cbn [fmap option_fmap option_map snd].
  cbv beta iota. flatten_prog.
  rewrite (run_LoadGlctx p win) by done. by red_run.
Qed.

Lemma run_find_glctx_empty w :
  windows (theScreen w) = ∅ →
  run find_glctx w = ([Lbl RangeWindows None], set_rand (tl (rand w)) w, Some None).
Proof.
  intros Hw. unfold find_glctx. flatten_prog.
  rewrite run_RangeWindows, Hw, range_first_empty.
  cbn [fmap option_fmap option_map]. cbv beta iota. flatten_prog. by red_run.
Qed.

Lemma run_setup_texture_program c p w :
  run (setup_texture_program c p) w
  = (setup_trace c p (ctx_state w c),
     set_theScreen (set_texture (setup_texture p (ctx_state w c)) (theScreen w))
       (put_ctx c (setup_state (ctx_state w c)) w),
     Some tt).
Proof.
  unfold setup_texture_program. flatten_prog.
  mem_step. do 5 (gl_step; mem_step). gl_step. do 2 mem_step. do 2 gl_step.
  by red_run.
Qed.

Lemma run_alloc_texture c size w :
  run (alloc_texture c size) w
  = (alloc_trace c size (ctx_state w c),
     put_ctx c (alloc_state size (ctx_state w c)) w,
     Some (Some (mkTextureImpl c (new_texture_id (ctx_state w c)) size), None)).
Proof.
  unfold alloc_texture. flatten_prog. do 7 gl_step. by red_run.
Qed.

Lemma run_act_Unlock_glMu w :
  run (act (Unlock glMu)) (set_glMu true w)
  = ([Lbl (Unlock glMu) tt], set_glMu false w, Some tt).
Proof. unfold act. rewrite run_Unlock_glMu. by red_run. Qed.

Lemma run_act_Lock_glMu w :
  glMu_locked w = false →
  run (act (Lock glMu)) w = ([Lbl (Lock glMu) tt], set_glMu true w, Some tt).
Proof. intros H. unfold act. rewrite run_Lock_glMu by done. by red_run. Qed.

(** [Lock] before and the deferred [Unlock] after the body. *)
Lemma run_NewTexture_wrap size w tr w' r :
  glMu_locked w = false →
  run (NewTexture_body size) (set_glMu true w) = (tr, set_glMu true w', Some r) →
  run (NewTexture size) w
  = (Lbl (Lock glMu) tt :: tr ++ [Lbl (Unlock glMu) tt], set_glMu false w', Some r).
Proof.
  intros Hmu Hbody. unfold NewTexture, defer.
  rewrite run_bind, run_act_Lock_glMu by done. red_run.
  rewrite run_bind, Hbody. red_run.
  rewrite run_bind, run_act_Unlock_glMu. red_run. done.
Qed.

(** *** The ways through [NewTexture] *)

Lemma run_NewTexture_no_window size w :
  glMu_locked w = false →
  windows (theScreen w) = ∅ →
  run (NewTexture size) w
  = ([Lbl (Lock glMu) tt; Lbl RangeWindows None; Lbl (Unlock glMu) tt],
     set_glMu false (set_rand (tl (rand w)) w),
     Some (None, Some NoContextAvailable)).
Proof.
  intros Hmu Hwin.
  apply (run_NewTexture_wrap size w [Lbl RangeWindows None]); [done|].
  unfold NewTexture_body.
  rewrite run_bind, run_find_glctx_empty by done. red_run. by wnorm.
Qed.

Lemma run_NewTexture_nil_glctx size w id p win :
  glMu_locked w = false →
  visits w id p → wheap w !! p = Some win → glctx win = None →
  run (NewTexture size) w
  = (find_trace p None ++ [Lbl (Unlock glMu) tt],
     set_glMu false (set_rand (tl (rand w)) w),
     Some (None, Some NoContextAvailable)).
Proof.
  intros Hmu Hv Hp Hc.
  apply (run_NewTexture_wrap size w
           [Lbl RangeWindows (Some p); Lbl (LoadGlctx p) None]); [done|].
  unfold NewTexture_body.
  rewrite run_bind, (run_find_glctx _ id p win) by done.
  rewrite Hc. red_run. by wnorm.
Qed.

Lemma run_NewTexture_valid size w id p win c :
  glMu_locked w = false →
  visits w id p → wheap w !! p = Some win → glctx win = Some c →
  gl.pValue (program (texture (theScreen w))) ∈ gl.programs (ctx_state w c) →
  run (NewTexture size) w
  = (find_trace p (Some c)
       ++ [Lbl (LoadTex Fprogram) (program (texture (theScreen w)));
           Lbl (GL c (gl.IsProgram (program (texture (theScreen w))))) true]
       ++ alloc_trace c size (ctx_state w c) ++ [Lbl (Unlock glMu) tt],
     set_glMu false
       (put_ctx c (alloc_state size (ctx_state w c)) (set_rand (tl (rand w)) w)),
     Some (Some (mkTextureImpl c (new_texture_id (ctx_state w c)) size), None)).
Proof.
  intros Hmu Hv Hp Hc Hvalid.
  rewrite (run_NewTexture_wrap size w
    ([Lbl RangeWindows (Some p); Lbl (LoadGlctx p) (Some c)]
       ++ [Lbl (LoadTex Fprogram) (program (texture (theScreen w)));
           Lbl (GL c (gl.IsProgram (program (texture (theScreen w))))) true]
       ++ alloc_trace c size (ctx_state w c))
    (put_ctx c (alloc_state size (ctx_state w c)) (set_rand (tl (rand w)) w))
    (Some (mkTextureImpl c (new_texture_id (ctx_state w c)) size), None));
    [by rewrite <- !app_assoc|done|].
  unfold NewTexture_body.
  rewrite run_bind, (run_find_glctx _ id p win) by done.
  rewrite Hc. red_run. wnorm.
  rewrite run_bind. unfold act at 1. rewrite run_LoadTex. wnorm. red_run.
  cbn [tex_get].
  rewrite run_bind. unfold act at 1. rewrite run_GL. wnorm. cbn [gl.exec fst snd].
  rewrite bool_decide_eq_true_2 by done. red_run. cbn [negb].
  rewrite run_alloc_texture. by wnorm.
Qed.

Lemma run_NewTexture_compile_fail size w id p win c pr e g1 :
  glMu_locked w = false →
  visits w id p → wheap w !! p = Some win → glctx win = Some c →
  gl.pValue (program (texture (theScreen w))) ∉ gl.programs (ctx_state w c) →
  compileProgram textureVertexSrc textureFragmentSrc (ctx_state w c)
    = ((pr, Some e), g1) →
  run (NewTexture size) w
  = (find_trace p (Some c)
       ++ [Lbl (LoadTex Fprogram) (program (texture (theScreen w)));
           Lbl (GL c (gl.IsProgram (program (texture (theScreen w))))) false;
           Lbl (CompileProgram c textureVertexSrc textureFragmentSrc) (pr, Some e);
           Lbl (Unlock glMu) tt],
     set_glMu false (put_ctx c g1 (set_rand (tl (rand w)) w)),
     Some (None, Some e)).
Proof.
  intros Hmu Hv Hp Hc Hvalid Hcomp.
  rewrite (run_NewTexture_wrap size w
    ([Lbl RangeWindows (Some p); Lbl (LoadGlctx p) (Some c)]
       ++ [Lbl (LoadTex Fprogram) (program (texture (theScreen w)));
           Lbl (GL c (gl.IsProgram (program (texture (theScreen w))))) false;
           Lbl (CompileProgram c textureVertexSrc textureFragmentSrc) (pr, Some e)])
    (put_ctx c g1 (set_rand (tl (rand w)) w))
    (None, Some e)); [done|done|].
  unfold NewTexture_body.
  rewrite run_bind, (run_find_glctx _ id p win) by done.
  rewrite Hc. red_run. wnorm.
  rewrite run_bind. unfold act at 1. rewrite run_LoadTex. wnorm. red_run.
  cbn [tex_get].
  rewrite run_bind. unfold act at 1. rewrite run_GL. wnorm. cbn [gl.exec fst snd].
  rewrite bool_decide_eq_false_2 by done. red_run. cbn [negb].
  rewrite run_bind. unfold act at 1.
  rewrite (run_CompileProgram _ _ _ _ _ (pr, Some e) g1) by (by wnorm).
  red_run. by wnorm.
Qed.

Lemma run_NewTexture_compile_ok size w id p win c pr g1 :
  glMu_locked w = false →
  visits w id p → wheap w !! p = Some win → glctx win = Some c →
  gl.pValue (program (texture (theScreen w))) ∉ gl.programs (ctx_state w c) →
  compileProgram textureVertexSrc textureFragmentSrc (ctx_state w c)
    = ((pr, None), g1) →
  run (NewTexture size) w
  = (find_trace p (Some c)
       ++ [Lbl (LoadTex Fprogram) (program (texture (theScreen w)));
           Lbl (GL c (gl.IsProgram (program (texture (theScreen w))))) false;
           Lbl (CompileProgram c textureVertexSrc textureFragmentSrc) (pr, None)]
       ++ setup_trace c pr g1
       ++ alloc_trace c size (setup_state g1) ++ [Lbl (Unlock glMu) tt],
     set_glMu false
       (set_theScreen (set_texture (setup_texture pr g1) (theScreen w))
          (put_ctx c (alloc_state size (setup_state g1)) (set_rand (tl (rand w)) w))),
     Some (Some (mkTextureImpl c (new_texture_id (setup_state g1)) size), None)).
Proof.
  intros Hmu Hv Hp Hc Hvalid Hcomp.
  rewrite (run_NewTexture_wrap size w
    ([Lbl RangeWindows (Some p); Lbl (LoadGlctx p) (Some c)]
       ++ [Lbl (LoadTex Fprogram) (program (texture (theScreen w)));
           Lbl (GL c (gl.IsProgram (program (texture (theScreen w))))) false;
           Lbl (CompileProgram c textureVertexSrc textureFragmentSrc) (pr, None)]
       ++ setup_trace c pr g1 ++ alloc_trace c size (setup_state g1))
    (set_theScreen (set_texture (setup_texture pr g1) (theScreen w))
       (put_ctx c (alloc_state size (setup_state g1)) (set_rand (tl (rand w)) w)))
    (Some (mkTextureImpl c (new_texture_id (setup_state g1)) size), None));
    [by rewrite <- !app_assoc|done|].
  unfold NewTexture_body.
  rewrite run_bind, (run_find_glctx _ id p win) by done.
  rewrite Hc. red_run. wnorm.
  rewrite run_bind. unfold act at 1. rewrite run_LoadTex. wnorm. red_run.
  cbn [tex_get].
  rewrite run_bind. unfold act at 1. rewrite run_GL. wnorm. cbn [gl.exec fst snd].
  rewrite bool_decide_eq_false_2 by done. red_run. cbn [negb].
  rewrite run_bind. unfold act at 1.
  rewrite (run_CompileProgram _ _ _ _ _ (pr, None) g1) by (by wnorm).
  red_run.
  rewrite run_bind, run_setup_texture_program. wnorm. red_run.
  rewrite run_alloc_texture. by wnorm.
Qed.

(** *** [NewTexture]: what it returns *)

(** C2: for every size, [NewTexture] called while the registry holds no
    window returns the error [NoContextAvailable] and no texture.  The trace
    shows that it gets there without a single call on a GL context: it locks
    [glMu], looks for a window, finds none, and unlocks. *)
Theorem C2_NewTexture_no_window (size : image.Point) (w : World) :
  glMu_locked w = false →
  windows (theScreen w) = ∅ →
  run (NewTexture size) w
  = ([Lbl (Lock glMu) tt; Lbl RangeWindows None; Lbl (Unlock glMu) tt],
     set_rand (tl (rand w)) w,
     Some (None, Some NoContextAvailable)).
Proof.
  intros Hmu Hwin. rewrite run_NewTexture_no_window by done.
  by rewrite (set_glMu_id false).
Qed.

(** C3, amended: for every size, [NewTexture] succeeds when the window it
    picks from the registry has a GL context and the texture program is valid
    in that context or compiles.  It then returns a texture that records the
    requested size and the context, and the context holds, bound to
    TEXTURE_2D, a texture object of that size with linear filters and
    edge-clamp wrapping; the calls that made it close the trace. *)
Theorem C3_NewTexture_ok (size : image.Point) (w : World) id p win c :
  glMu_locked w = false →
  visits w id p → wheap w !! p = Some win → glctx win = Some c →
  (gl.pValue (program (texture (theScreen w))) ∈ gl.programs (ctx_state w c)
   ∨ ∃ pr g1, compileProgram textureVertexSrc textureFragmentSrc (ctx_state w c)
              = ((pr, None), g1)) →
  ∃ tr w' t o,
    run (NewTexture size) w = (tr, w', Some (Some t, None))
    ∧ t_size t = size ∧ t_glctx t = c
    ∧ gl.textures (ctx_state w' c) !! gl.tValue (t_id t) = Some o
    ∧ gl.tex_width o = image.X size ∧ gl.tex_height o = image.Y size
    ∧ linear_clamped o
    ∧ gl.texture_2d (ctx_state w' c) = t_id t
    ∧ ∃ pre g, tr = pre ++ alloc_trace c size g ++ [Lbl (Unlock glMu) tt]
               ∧ t_id t = new_texture_id g.
Proof.
  intros Hmu Hv Hp Hc Hprog.
  destruct (decide (gl.pValue (program (texture (theScreen w)))
                    ∈ gl.programs (ctx_state w c))) as [Hvalid|Hinvalid].
  - eexists _, _, _, _. split; [by apply (run_NewTexture_valid _ _ id p win c)|].
    cbn [t_size t_glctx t_id]. wnorm.
    split_and!;
      [done | done | apply textures_alloc_state | done | done
      | apply texture_params_lookup | done | ].
    eexists _, _. split; [|done]. by rewrite !app_assoc.
  - destruct Hprog as [?|(pr & g1 & Hcomp)]; [done|].
    eexists _, _, _, _.
    split; [by apply (run_NewTexture_compile_ok _ _ id p win c pr g1)|].
    cbn [t_size t_glctx t_id]. wnorm.
    split_and!;
      [done | done | apply textures_alloc_state | done | done
      | apply texture_params_lookup | done | ].
    eexists _, _. split; [|done]. by rewrite !app_assoc.
Qed.

(** C5: if [compileProgram] fails during [NewTexture], the caller gets the
    compiler's error and no texture; [theScreen] (the program handle, the
    locations, the quad buffer) is as before; the context is as the compiler
    left it; the trace has one compilation, no [CreateTexture] and no store
    to [s.texture]. *)
Theorem C5_compile_failure (size : image.Point) (w : World) id p win c pr e g1 :
  glMu_locked w = false →
  visits w id p → wheap w !! p = Some win → glctx win = Some c →
  gl.pValue (program (texture (theScreen w))) ∉ gl.programs (ctx_state w c) →
  compileProgram textureVertexSrc textureFragmentSrc (ctx_state w c)
    = ((pr, Some e), g1) →
  ∃ tr w',
    run (NewTexture size) w = (tr, w', Some (None, Some e))
    ∧ theScreen w' = theScreen w
    ∧ ctx_state w' c = g1
    ∧ glMu_locked w' = false
    ∧ count is_compile tr = 1%nat
    ∧ count is_create_texture tr = 0%nat
    ∧ count is_store_tex tr = 0%nat.
Proof.
  intros Hmu Hv Hp Hc Hinvalid Hcomp.
  eexists _, _.
  split; [by apply (run_NewTexture_compile_fail _ _ id p win c pr e g1)|].
  wnorm. done.
Qed.

(** *** Sequences of [NewTexture] calls *)

Lemma range_first_None {V} seed (m : gmap Z V) :
  range_first seed m = None → m = ∅.
Proof.
  intros H. destruct (decide (m = ∅)) as [|Hne]; [done|].
  destruct (range_first_nonempty seed m Hne) as [x Hx]. congruence.
Qed.

(** What one call does when every window has the context [c]. *)
Lemma NewTexture_call size w c :
  glMu_locked w = false → same_context c w → compile_sound →
  ∃ tr w' r,
    run (NewTexture size) w = (tr, w', Some r)
    ∧ glMu_locked w' = false ∧ same_context c w'
    ∧ windows (theScreen w') = windows (theScreen w)
    ∧ ( (* the program is valid: nothing is compiled, nothing is stored *)
        (windows (theScreen w) ≠ ∅ ∧ texture_program_valid c w
         ∧ returned_ok (Some r)
         ∧ count is_compile tr = 0%nat ∧ count is_compiled tr = 0%nat
         ∧ count is_store_tex tr = 0%nat
         ∧ saw_valid_program c tr
         ∧ texture (theScreen w') = texture (theScreen w)
         ∧ texture_program_valid c w')
        (* no window, or the compiler failed: no texture *)
        ∨ ((windows (theScreen w) = ∅ ∨ ¬ texture_program_valid c w)
           ∧ ¬ returned_ok (Some r)
           ∧ count is_compiled tr = 0%nat)
        (* the program is compiled and set up *)
        ∨ (windows (theScreen w) ≠ ∅ ∧ ¬ texture_program_valid c w
           ∧ returned_ok (Some r)
           ∧ count is_compile tr = 1%nat ∧ count is_compiled tr = 1%nat
           ∧ texture_program_valid c w'
           ∧ ∃ pr g1,
               Lbl (CompileProgram c textureVertexSrc textureFragmentSrc) (pr, None)
                 ∈ tr
               ∧ texture (theScreen w') = setup_texture pr g1
               ∧ gl.buffers (ctx_state w' c) !! gl.bValue (quad (setup_texture pr g1))
                 = Some quadCoords) ).
Proof.
  intros Hmu Hsame Hsound.
  destruct (range_first (hd 0%nat (rand w)) (windows (theScreen w)))
    as [[id p]|] eqn:Hv.
  - assert (Hne : windows (theScreen w) ≠ ∅).
    { intros Hw. rewrite Hw, range_first_empty in Hv. discriminate. }
    destruct (Hsame id p) as (win & Hp & Hc); [by eapply range_first_Some|].
    destruct (decide (gl.pValue (program (texture (theScreen w)))
                      ∈ gl.programs (ctx_state w c))) as [Hvalid|Hinvalid].
    + eexists _, _, _.
      split; [by apply (run_NewTexture_valid _ _ id p win c)|].
      split; [done|]. split; [done|]. split; [done|]. left.
      split_and!; try done.
      * by eexists.
      * eexists. unfold find_trace. rewrite !elem_of_app, !elem_of_cons. tauto.
      * unfold texture_program_valid. wnorm. by rewrite programs_alloc_state.
    + destruct (compileProgram textureVertexSrc textureFragmentSrc (ctx_state w c))
        as [[pr [e|]] g1] eqn:Hcomp.
      * eexists _, _, _.
        split; [by apply (run_NewTexture_compile_fail _ _ id p win c pr e g1)|].
        split; [done|]. split; [done|]. split; [done|]. right; left.
        split_and!; [by right | by intros [t [=]] | done].
      * eexists _, _, _.
        split; [by apply (run_NewTexture_compile_ok _ _ id p win c pr g1)|].
        split; [done|]. split; [done|]. split; [done|]. right; right.
        split_and!; try done.
        -- by eexists.
        -- unfold texture_program_valid. wnorm.
           rewrite programs_alloc_state, programs_setup_state.
           by eapply Hsound.
        -- exists pr, g1. split_and!.
           ++ unfold find_trace. rewrite !elem_of_app, !elem_of_cons. tauto.
           ++ by wnorm.
           ++ wnorm. cbn. by rewrite lookup_insert_eq.
  - apply range_first_None in Hv.
    eexists _, _, _.
    split; [by apply run_NewTexture_no_window|].
    split; [done|]. split; [done|]. split; [done|]. right; left.
    split_and!; [by left | by intros [t [=]] | done].
Qed.

(** Once the program is valid and a window is registered, every call skips
    the compilation and leaves [s.texture] alone. *)
Lemma NewTexture_seq_valid sizes w c :
  glMu_locked w = false → same_context c w → compile_sound →
  windows (theScreen w) ≠ ∅ → texture_program_valid c w →
  Forall (λ ci, returned_ok ci.2
                ∧ count is_compile ci.1.1 = 0%nat
                ∧ count is_compiled ci.1.1 = 0%nat
                ∧ count is_store_tex ci.1.1 = 0%nat
                ∧ saw_valid_program c ci.1.1
                ∧ texture (theScreen ci.1.2) = texture (theScreen w))
         (run_seq (NewTexture <$> sizes) w).
Proof.
  intros Hmu Hsame Hsound. revert w Hmu Hsame.
  induction sizes as [|size sizes IH]; intros w Hmu Hsame Hne Hvalid.
  { constructor. }
  cbn [fmap list_fmap run_seq].
  destruct (NewTexture_call size w c Hmu Hsame Hsound)
    as (tr & w' & r & Hrun & Hmu' & Hsame' & Hwin & Hcase).
  rewrite Hrun. cbn [fst snd].
  destruct Hcase as [(_ & _ & Hok & Hc0 & Hc1 & Hst & Hsaw & Htex & Hvalid')
                    |[([Hempty|Hinv] & _)|(_ & Hinv & _)]]; try done.
  constructor; [done|].
  eapply Forall_impl; [apply IH; try done; by rewrite Hwin|].
  intros ci (?&?&?&?&?&Ht). split_and!; try done. by rewrite Ht.
Qed.

Lemma compilations_skipped {A} (calls : list (list label * World * option A)) P :
  Forall (λ ci, P ci ∧ count is_compiled ci.1.1 = 0%nat) calls →
  compilations calls = 0%nat.
Proof.
  unfold compilations. induction 1 as [|ci calls [_ H0] _ IH]; [done|].
  cbn. by rewrite H0, IH.
Qed.

(** C4: in every sequence of [NewTexture] calls against one context [c]
    (every registered window has it), given that a program [compileProgram]
    returns is a program of the context:
    - the texture program is compiled successfully at most once;
    - after a call that returned a texture, every later call returns a
      texture too, sees [IsProgram] answer true, runs no compilation, stores
      nothing in [s.texture], and leaves it as that call left it;
    - a call that returned a texture either saw [IsProgram] answer true and
      ran no compilation, or ran exactly one compilation, the successful one,
      and left [s.texture] with the new program, its five locations and the
      new quad buffer, that buffer holding [quadCoords], and the handle valid
      for the calls to come. *)
Theorem C4_compiled_at_most_once (sizes : list image.Point) (w : World) c :
  glMu_locked w = false → same_context c w → compile_sound →
  let calls := run_seq (NewTexture <$> sizes) w in
  (compilations calls ≤ 1)%nat
  ∧ (∀ i j ci cj,
       (i < j)%nat → calls !! i = Some ci → calls !! j = Some cj →
       returned_ok ci.2 →
       returned_ok cj.2
       ∧ saw_valid_program c cj.1.1
       ∧ count is_compile cj.1.1 = 0%nat
       ∧ count is_store_tex cj.1.1 = 0%nat
       ∧ texture (theScreen cj.1.2) = texture (theScreen ci.1.2))
  ∧ (∀ i ci,
       calls !! i = Some ci → returned_ok ci.2 →
       (saw_valid_program c ci.1.1 ∧ count is_compile ci.1.1 = 0%nat)
       ∨ (count is_compile ci.1.1 = 1%nat
          ∧ texture_program_valid c ci.1.2
          ∧ ∃ pr g1,
              Lbl (CompileProgram c textureVertexSrc textureFragmentSrc) (pr, None)
                ∈ ci.1.1
              ∧ texture (theScreen ci.1.2) = setup_texture pr g1
              ∧ gl.buffers (ctx_state ci.1.2 c)
                  !! gl.bValue (quad (setup_texture pr g1))
                = Some quadCoords)).
Proof.
  intros Hmu Hsame Hsound. revert w Hmu Hsame.
  induction sizes as [|size sizes IH]; intros w Hmu Hsame calls.
  { subst calls. cbn. split_and!; [lia|by intros [|?] ?|by intros [|?] ?]. }
  subst calls. cbn [fmap list_fmap run_seq].
  destruct (NewTexture_call size w c Hmu Hsame Hsound)
    as (tr & w' & r & Hrun & Hmu' & Hsame' & Hwin & Hcase).
  rewrite Hrun. cbn [fst snd].
  destruct (IH w' Hmu' Hsame') as (IH1 & IH2 & IH3).
  set (rest := run_seq (NewTexture <$> sizes) w') in *.
  (* the later calls, when this one returned a texture *)
  assert (Hlater : returned_ok (Some r) →
            Forall (λ ci, returned_ok ci.2
                          ∧ count is_compile ci.1.1 = 0%nat
                          ∧ count is_compiled ci.1.1 = 0%nat
                          ∧ count is_store_tex ci.1.1 = 0%nat
                          ∧ saw_valid_program c ci.1.1
                          ∧ texture (theScreen ci.1.2) = texture (theScreen w'))
                   rest).
  { intros Hok. apply NewTexture_seq_valid; try done.
    - rewrite Hwin.
      by destruct Hcase as [(?&_)|[(_&?&_)|(?&_)]].
    - by destruct Hcase as [(_&_&_&_&_&_&_&_&?)|[(_&?&_)|(_&_&_&_&_&?&_)]]. }
  split_and!.
  - (* at most one compilation *)
    unfold compilations in *. cbn [sum_list_with fst snd].
    destruct Hcase as [(_&_&_&_&Hc1&_)|[(_&_&Hc1)|(_&_&Hok&_&Hc1&_)]];
      rewrite Hc1; [lia|lia|].
    specialize (Hlater Hok).
    fold (compilations rest).
    rewrite (compilations_skipped rest
               (λ ci, returned_ok ci.2 ∧ count is_compile ci.1.1 = 0%nat)); [lia|].
    eapply Forall_impl; [exact Hlater|]. intros ci (?&?&?&_). done.
  - (* the calls after one that returned a texture *)
    intros [|i] [|j] ci cj Hij Hi Hj Hok; try lia.
    + cbn in Hi, Hj. injection Hi as <-. cbn [fst snd] in *.
      pose proof (Forall_lookup_1 _ _ _ _ (Hlater Hok) Hj) as (?&?&?&?&?&?).
      done.
    + cbn in Hi, Hj. apply (IH2 i j); [lia|done..].
  - (* each call that returned a texture *)
    intros [|i] ci Hi Hok.
    + cbn in Hi. injection Hi as <-. cbn [fst snd] in *.
      destruct Hcase as [(_&_&_&Hc0&_&_&Hsaw&_)|[(_&Hno&_)|(_&_&_&Hc0&_&Hv&Hset)]].
      * by left.
      * done.
      * right. done.
    + cbn in Hi. by apply (IH3 i).
Qed.

(** *** [NewWindow] *)

Lemma run_act {R} (e : Event R) w r w' :
  handle e w = Some (r, w') → run (act e) w = ([Lbl e r], w', Some r).
Proof. intros H. unfold act. by rewrite (run_handled _ _ _ _ _ H). Qed.

Ltac wlit :=
  cbv [set_glMu set_theScreen set_wheap set_chans set_next_loc set_glctxs
       set_rand set_platform set_goroutines set_mu set_windows set_texture
       glMu_locked theScreen wheap chans next_loc glctxs rand platform
       goroutines mu windows texture fill].

Ltac act_step :=
  rewrite run_bind;
  erewrite run_act by (cbn [handle]; wlit; reflexivity);
  cbv beta iota zeta.

Lemma run_NewWindow {O : Type} (opts : option O) w :
  mu (theScreen w) = false →
  run (NewWindow opts) w
  = (register_trace w ++ attach_trace w, after_NewWindow w,
     Some (Some (new_window_ptr w), None)).
Proof.
  intros Hmu. destruct w as [m [tx fl smu wins] wh ch nl gs rd pf go].
  cbn in Hmu. subst smu.
  unfold NewWindow.
  do 10 act_step.
  rewrite run_bind.
  erewrite run_act; cycle 1.
  { cbn [handle]. wlit. rewrite lookup_insert_eq. cbn [mbind option_bind].
    rewrite insert_insert_eq. reflexivity. }
  cbv beta iota zeta.
  act_step. reflexivity.
Qed.

Lemma steps_app {A} (st1 st2 st3 : Op A * World) tr1 tr2 :
  steps st1 tr1 st2 → steps st2 tr2 st3 → steps st1 (tr1 ++ tr2) st3.
Proof.
  induction 1 as [|st1 l st2' tr st2 Hs _ IH]; intros H2; [done|].
  cbn. econstructor; [exact Hs|]. by apply IH.
Qed.

(** A sequential execution is a sequence of steps. *)
Lemma run_steps {A} (m : Op A) w tr w' a :
  run m w = (tr, w', Some a) → steps (m, w) tr (Ret a, w').
Proof.
  revert w tr. induction m as [a0|R e k IH]; intros w tr.
  - cbn. intros [= <- <- <-]. constructor.
  - cbn. destruct (handle e w) as [[r w1]|] eqn:He; [|done].
    destruct (run (k r) w1) as [[tr1 w2] a1] eqn:Hr.
    intros [= <- <- ->].
    econstructor; [by constructor|]. by apply IH.
Qed.

Ltac one_step :=
  eapply steps_cons;
  [ apply step_vis; cbn [handle]; wlit; reflexivity | cbv beta ].

(** The first nine actions of [NewWindow] lead to [registered w]. *)
Lemma NewWindow_registers {O : Type} (opts : option O) w :
  mu (theScreen w) = false →
  steps (NewWindow opts, w) (register_trace w)
    (c ← act (CallShowWindow (new_id w));
     act (StoreCtx (new_window_ptr w) c) ;;
     act (Go (drawLoop (new_window_ptr w))) ;;
     mret (Some (new_window_ptr w), None),
     registered w).
Proof.
  intros Hmu. destruct w as [m [tx fl smu wins] wh ch nl gs rd pf go].
  cbn in Hmu. subst smu.
  unfold NewWindow, register_trace. flatten_prog.
  do 9 one_step. apply steps_nil.
Qed.

(** The last three actions lead from [registered w] to the final store. *)
Lemma NewWindow_attaches w :
  steps (c ← act (CallShowWindow (new_id w));
         act (StoreCtx (new_window_ptr w) c) ;;
         act (Go (drawLoop (new_window_ptr w))) ;;
         (mret (Some (new_window_ptr w), None) : Op (option nat * option error)),
         registered w)
    (attach_trace w)
    (Ret (Some (new_window_ptr w), None), after_NewWindow w).
Proof.
  destruct w as [m [tx fl smu wins] wh ch nl gs rd pf go].
  unfold attach_trace. flatten_prog.
  one_step.
  eapply steps_cons.
  { apply step_vis. cbn [handle registered]. wlit.
    rewrite lookup_insert_eq. cbn [mbind option_bind].
    rewrite insert_insert_eq. reflexivity. }
  cbv beta. one_step. apply steps_nil.
Qed.

(** C8: whatever options are passed, of whatever type, [NewWindow] does the
    same: the programs are equal.  Its one call to the platform's [newWindow]
    is the first action and asks for 1024x768, and the platform sees that
    call followed by [showWindow] of the window it answered. *)
Theorem C8_NewWindow_ignores_options {O O' : Type}
    (opts : option O) (opts' : option O') (w : World) :
  mu (theScreen w) = false →
  NewWindow opts = NewWindow opts'
  ∧ ∃ tr,
      (run (NewWindow opts) w).1.1 = Lbl (CallNewWindow 1024 768) (new_id w) :: tr
      ∧ count is_call_new_window tr = 0%nat
      ∧ platform (run (NewWindow opts) w).1.2
        = showWindowCall (new_id w) :: newWindowCall 1024 768 :: platform w.
Proof.
  intros Hmu. split; [reflexivity|].
  rewrite run_NewWindow by done. eexists. split; [reflexivity|]. done.
Qed.

(** C9: for every options value, nil included, [NewWindow] returns a window
    and a nil error; the window is a live object of the heap.  No path
    through the function returns anything else: every leaf of its program is
    a window with a nil error. *)
Theorem C9_NewWindow_never_fails {O : Type} (opts : option O) (w : World) :
  mu (theScreen w) = false →
  (∃ tr w' p, run (NewWindow opts) w = (tr, w', Some (Some p, None))
              ∧ is_Some (wheap w' !! p))
  ∧ all_leaves (λ r, ∃ p, r = (Some p, None)) (NewWindow opts).
Proof.
  intros Hmu. split.
  - eexists _, _, _. split; [by apply run_NewWindow|].
    cbn. rewrite lookup_insert_eq. by eexists.
  - cbn. intros. by eexists.
Qed.

(** C10: [NewWindow] passes through the store [registered w], reached by the
    actions of [register_trace w], none of which attaches a context.  There
    the registry maps the new id to the new window, the window has neither
    [ctx] nor [glctx], and [s.mu] is free, so that anyone may look.  Only the
    actions that follow ([attach_trace w]) call [showWindow] and assign
    [ctx]. *)
Theorem C10_registered_before_attached {O : Type} (opts : option O) (w : World) :
  mu (theScreen w) = false →
  ∃ rest,
    steps (NewWindow opts, w) (register_trace w) (rest, registered w)
    ∧ windows (theScreen (registered w)) !! new_id w = Some (new_window_ptr w)
    ∧ wheap (registered w) !! new_window_ptr w = Some (new_window w)
    ∧ ctx (new_window w) = 0
    ∧ glctx (new_window w) = None
    ∧ mu (theScreen (registered w)) = false
    ∧ count is_attach (register_trace w) = 0%nat
    ∧ steps (rest, registered w) (attach_trace w)
        (Ret (Some (new_window_ptr w), None), after_NewWindow w)
    ∧ ctx <$> wheap (after_NewWindow w) !! new_window_ptr w = Some (new_ctx w).
Proof.
  intros Hmu. eexists. split; [by apply NewWindow_registers|].
  split_and!; try done.
  - cbn. apply lookup_insert_eq.
  - cbn. apply lookup_insert_eq.
  - apply NewWindow_attaches.
  - cbn. by rewrite lookup_insert_eq.
Qed.

(** An observer at that point: [NewTexture], run in [registered w] when the
    runtime's iteration starts at the new window, finds its [glctx] nil and
    returns [NoContextAvailable]. *)
Lemma NewTexture_in_registered size w :
  glMu_locked w = false →
  visits (registered w) (new_id w) (new_window_ptr w) →
  (run (NewTexture size) (registered w)).2 = Some (None, Some NoContextAvailable).
Proof.
  intros Hmu Hv.
  rewrite (run_NewTexture_nil_glctx size (registered w) (new_id w)
             (new_window_ptr w) (new_window w)); try done.
  cbn. apply lookup_insert_eq.
Qed.

(** *** Publish signals *)

Lemma run_Publish p w win c :
  wheap w !! p = Some win → chans w !! publish win = Some c →
  run (Publish p) w
  = ([Lbl (LoadPublish p) (publish win);
      Lbl (TrySend (publish win)) (bool_decide (len c < cap c)%nat)],
     (if bool_decide (len c < cap c)%nat
      then set_chans (<[publish win := mkChan (cap c) (S (len c))]> (chans w)) w
      else w),
     Some (bool_decide (len c < cap c)%nat)).
Proof.
  intros Hp Hc. unfold Publish.
  rewrite run_bind. erewrite run_act by (cbn [handle]; rewrite Hp; reflexivity).
  cbv beta iota zeta.
  erewrite run_act; [reflexivity|].
  cbn [handle]. rewrite Hc. cbn [mbind option_bind].
  by case_decide; [rewrite bool_decide_eq_true_2|rewrite bool_decide_eq_false_2].
Qed.

Lemma run_ConsumePublish p w win c :
  wheap w !! p = Some win → chans w !! publish win = Some c →
  run (ConsumePublish p) w
  = ([Lbl (LoadPublish p) (publish win);
      Lbl (TryRecv (publish win)) (negb (Nat.eqb (len c) 0))],
     match len c with
     | O => w
     | S n => set_chans (<[publish win := mkChan (cap c) n]> (chans w)) w
     end,
     Some (negb (Nat.eqb (len c) 0))).
Proof.
  intros Hp Hc. unfold ConsumePublish.
  rewrite run_bind. erewrite run_act by (cbn [handle]; rewrite Hp; reflexivity).
  cbv beta iota zeta.
  erewrite run_act; [reflexivity|].
  cbn [handle]. rewrite Hc. cbn [mbind option_bind].
  by destruct (len c).
Qed.

Lemma after_calls_S {A} n (m : Op A) w :
  after_calls (S n) m w = (run m (after_calls n m w)).1.2.
Proof. reflexivity. Qed.

Lemma after_publishes p win w m :
  wheap w !! p = Some win →
  chans w !! publish win = Some (mkChan 1 0) →
  wheap (after_calls m (Publish p) w) !! p = Some win
  ∧ chans (after_calls m (Publish p) w) !! publish win
    = Some (mkChan 1 (Nat.min m 1)).
Proof.
  intros Hp Hc. induction m as [|m [IHp IHc]]; [done|].
  rewrite after_calls_S.
  rewrite (run_Publish p _ win _ IHp IHc). cbn [fst snd len cap].
  destruct m as [|m].
  - cbn [Nat.min]. rewrite bool_decide_eq_true_2 by lia.
    cbn. split; [done|]. apply lookup_insert_eq.
  - replace (Nat.min (S m) 1) with 1%nat in * by lia.
    rewrite bool_decide_eq_false_2 by lia.
    by replace (Nat.min (S (S m)) 1) with 1%nat by lia.
Qed.

(** Producers and consumers in any order never leave more than one signal
    in a channel of capacity one. *)
Lemma after_publish_or_consume p win w acts :
  wheap w !! p = Some win →
  (∃ k, chans w !! publish win = Some (mkChan 1 k) ∧ (k ≤ 1)%nat) →
  wheap (after_all (publish_or_consume p <$> acts) w) !! p = Some win
  ∧ ∃ k, chans (after_all (publish_or_consume p <$> acts) w) !! publish win
         = Some (mkChan 1 k) ∧ (k ≤ 1)%nat.
Proof.
  revert w. induction acts as [|b acts IH]; intros w Hp (k & Hc & Hk); [by eauto|].
  cbn [fmap list_fmap after_all foldl]. apply IH.
  - destruct b; cbn [publish_or_consume].
    + rewrite (run_Publish p w win _ Hp Hc). cbn [fst snd]. by case_bool_decide.
    + rewrite (run_ConsumePublish p w win _ Hp Hc). cbn [fst snd len].
      by destruct k.
  - destruct b; cbn [publish_or_consume].
    + rewrite (run_Publish p w win _ Hp Hc). cbn [fst snd len cap].
      case_bool_decide.
      * exists (S k). split; [apply lookup_insert_eq|lia].
      * by exists k.
    + rewrite (run_ConsumePublish p w win _ Hp Hc). cbn [fst snd len cap].
      destruct k as [|k]; [by exists 0%nat|].
      exists k. split; [apply lookup_insert_eq|lia].
Qed.

(** C7: the publish channel of a window made by [NewWindow] has capacity one
    and starts empty.  Whatever producers and consumers do, and in whatever
    order, at most one signal is pending.  After one [Publish] call or more
    with no consumer in between, exactly one is: the first call buffers its
    signal, a further call finds the channel full and drops its own.  The
    consumer then observes one signal, and no second one. *)
Theorem C7_publish_coalesced {O : Type} (opts : option O) (w : World) (n : nat) :
  mu (theScreen w) = false →
  let p := new_window_ptr w in
  let w1 := (run (NewWindow opts) w).1.2 in
  let w2 := after_calls (S n) (Publish p) w1 in
  pending w1 p = Some 0%nat
  ∧ (∀ acts, ∃ k, pending (after_all (publish_or_consume p <$> acts) w1) p = Some k
                  ∧ (k ≤ 1)%nat)
  ∧ pending w2 p = Some 1%nat
  ∧ (run (Publish p) w1).2 = Some true
  ∧ (run (Publish p) w2).2 = Some false
  ∧ (run (ConsumePublish p) w2).2 = Some true
  ∧ (run (ConsumePublish p) (run (ConsumePublish p) w2).1.2).2 = Some false.
Proof.
  intros Hmu p w1 w2. subst w1 w2 p.
  rewrite run_NewWindow by done. cbn [fst snd].
  set (p := new_window_ptr w). set (w1 := after_NewWindow w).
  set (win := set_ctx (new_ctx w) (new_window w)).
  assert (Hp : wheap w1 !! p = Some win) by apply lookup_insert_eq.
  assert (Hc : chans w1 !! publish win = Some (mkChan 1 0)).
  { cbn. unfold new_chans. rewrite !lookup_insert_ne by lia. apply lookup_insert_eq. }
  assert (Hpend : ∀ m, pending (after_calls m (Publish p) w1) p
                       = Some (Nat.min m 1)).
  { intros m. destruct (after_publishes p win w1 m Hp Hc) as [Hp' Hc'].
    unfold pending. rewrite Hp'. cbn [mbind option_bind]. by rewrite Hc'. }
  destruct (after_publishes p win w1 (S n) Hp Hc) as [Hp2 Hc2].
  replace (Nat.min (S n) 1) with 1%nat in Hc2 by lia.
  split_and!.
  - apply (Hpend 0%nat).
  - intros acts.
    destruct (after_publish_or_consume p win w1 acts Hp) as (Hp' & k & Hc' & Hk).
    { exists 0%nat. split; [done|lia]. }
    exists k. split; [|done].
    unfold pending. rewrite Hp'. cbn [mbind option_bind]. by rewrite Hc'.
  - rewrite Hpend. f_equal. lia.
  - by rewrite (run_Publish p w1 win _ Hp Hc).
  - by rewrite (run_Publish p _ win _ Hp2 Hc2).
  - by rewrite (run_ConsumePublish p _ win _ Hp2 Hc2).
  - rewrite (run_ConsumePublish p _ win _ Hp2 Hc2). cbn [fst snd len cap].
    erewrite (run_ConsumePublish p _ win); [|done|cbn; apply lookup_insert_eq].
    reflexivity.
Qed.

End SeqProps.




(** ** Interleavings *)

Section Interleaving.
Context `{D : Driver}.

Lemma step_inv {A} (m m' : Op A) w w' l :
  step (m, w) l (m', w') →
  match m with
  | Ret _ => False
  | Vis e k => ∃ r, handle e w = Some (r, w') ∧ l = Lbl e r ∧ m' = k r
  end.
Proof.
  intros H. inversion H as [R e k w1 r w2 He]; subst. by exists r.
Qed.

Lemma steps_snoc {A} (st1 st2 st3 : Op A * World) tr l :
  steps st1 tr st2 → step st2 l st3 → steps st1 (tr ++ [l]) st3.
Proof.
  intros H1 H2. eapply steps_app; [exact H1|].
  econstructor; [exact H2|constructor].
Qed.

(** Steps that reach a return are the sequential execution. *)
Lemma steps_run {A} (m : Op A) w tr a w' :
  steps (m, w) tr (Ret a, w') → run m w = (tr, w', Some a).
Proof.
  intros H. remember (m, w) as st eqn:E1. remember (Ret a, w') as st' eqn:E2.
  revert m w E1. induction H as [st|st1 l [m2 w2] tr st3 Hs Hss IH]; intros m w E1.
  - by simplify_eq.
  - subst st1 st3. apply step_inv in Hs.
    destruct m as [a0|R e k]; [done|].
    destruct Hs as (r & He & -> & ->).
    by rewrite (run_handled _ _ _ _ _ He), (IH eq_refl _ _ eq_refl).
Qed.

(** *** [glMu] changes hands only through its own [Lock] and [Unlock] *)

Lemma handle_lock_glMu {R} (e : Event R) w r w' :
  is_lock_glMu e = true → handle e w = Some (r, w') →
  glMu_locked w = false ∧ glMu_locked w' = true.
Proof.
  destruct e; try done. destruct m; [|done]. cbn.
  destruct (glMu_locked w); [done|]. by intros _ [= <- <-].
Qed.

Lemma handle_unlock_glMu {R} (e : Event R) w r w' :
  is_unlock_glMu e = true → handle e w = Some (r, w') →
  glMu_locked w = true ∧ glMu_locked w' = false.
Proof.
  destruct e; try done. destruct m; [|done]. cbn.
  destruct (glMu_locked w); [|done]. by intros _ [= <- <-].
Qed.

Lemma handle_keeps_glMu {R} (e : Event R) w r w' :
  is_lock_glMu e = false → is_unlock_glMu e = false →
  handle e w = Some (r, w') → glMu_locked w' = glMu_locked w.
Proof.
  destruct e; cbn; try destruct m; try done; intros _ _ H;
    repeat case_match; simplify_option_eq; try done.
  destruct (len _); by simplify_eq.
Qed.

(** *** Running one more goroutine after the others *)

Lemma serial_snoc {A} (ts : list (Op A)) order w0 ws trs rs t m tr w1 a :
  serial ts order w0 = Some (ws, trs, rs) →
  ts !! t = Some m →
  run m ws = (tr, w1, Some a) →
  serial ts (order ++ [t]) w0 = Some (w1, trs ++ tag t tr, rs ++ [(t, a)]).
Proof.
  intros Hser Ht Hrun. revert w0 trs rs Hser.
  induction order as [|t0 order IH]; intros w0 trs rs Hser; cbn in *.
  - simplify_eq. rewrite Ht. cbn. rewrite Hrun. cbn. by rewrite app_nil_r.
  - destruct (ts !! t0) as [m0|]; [|done]. cbn in *.
    destruct (run m0 w0) as [[tr0 w0'] [a0|]]; [|done].
    destruct (serial ts order w0') as [[[w2 tr2] rs2]|] eqn:Hs; [|done].
    cbn in Hser. simplify_eq.
    rewrite (IH _ _ _ Hs). cbn. by rewrite app_assoc.
Qed.

Lemma tag_app t tr1 tr2 : tag t (tr1 ++ tr2) = tag t tr1 ++ tag t tr2.
Proof. apply fmap_app. Qed.

(** *** The invariant of interleavings of critical sections *)

Lemma serialized_init {A} (ts0 : list (Op A)) w0 :
  glMu_locked w0 = false → serialized ts0 w0 ts0 w0 [].
Proof.
  intros Hmu. exists [], w0, [], []. split_and!; try done.
  - constructor.
  - intros t a H. by apply elem_of_nil in H.
  - intros t. split; [by intros ?%elem_of_nil|by intros [a ?%elem_of_nil]].
  - left. done.
Qed.

Lemma serialized_pstep {A} (ts0 : list (Op A)) w0 ts w tr x ts' w' :
  Forall atomic ts0 →
  serialized ts0 w0 ts w tr →
  pstep (ts, w) x (ts', w') →
  serialized ts0 w0 ts' w' (tr ++ [x]).
Proof.
  intros Hatomic (order & ws & trs & rs & Hnd & Hser & Hlen & Hrs & Hord & Hcase) Hp.
  inversion Hp as [ts1 w1 t m l m' w1' Ht Hstep]; subst. clear Hp.
  apply step_inv in Hstep. destruct m as [a0|R e k]; [done|].
  destruct Hstep as (r & He & -> & ->).
  assert (Htlen : (t < length ts)%nat) by (by eapply lookup_lt_Some).
  assert (Hnot : t ∉ order).
  { intros Hin. apply Hord in Hin as [a Hin]. apply Hrs in Hin. congruence. }
  assert (Hrs' : ∀ t' a, (t', a) ∈ rs → <[t := k r]> ts !! t' = Some (Ret a)).
  { intros t' a Hin. rewrite list_lookup_insert_ne; [by apply Hrs|].
    intros <-. apply Hnot, Hord. by exists a. }
  destruct Hcase as [(Hmu & <- & -> & Hidle)
                    |(t1 & m0 & m1 & pre & Hmu & Ht1 & Hm0 & Hm1 & Hcrit & Hpre & -> & Hidle)].
  - (* nobody holds glMu: the action is the Lock of an operation *)
    rewrite Hidle in Ht by done.
    pose proof (Forall_lookup_1 _ _ _ _ Hatomic Ht) as [Hlock Hk].
    destruct (handle_lock_glMu e w r w' Hlock He) as [_ Hmu'].
    exists order, w, trs, rs. split_and!; try done.
    { by rewrite length_insert. }
    right. exists t, (Vis e k), (k r), [Lbl e r]. split_and!; try done.
    + by apply list_lookup_insert_eq.
    + econstructor; [by constructor|constructor].
    + intros t' Hin Hne. rewrite list_lookup_insert_ne by done. by apply Hidle.
  - destruct (decide (t = t1)) as [->|Hne].
    + (* the holder of glMu moves *)
      rewrite Hm1 in Ht. injection Ht as ->. cbn in Hcrit.
      destruct (is_unlock_glMu e) eqn:Hunlock.
      * (* it unlocks and returns: one more whole operation *)
        destruct (Hcrit r) as [a Ha].
        destruct (handle_unlock_glMu e w r w' Hunlock He) as [_ Hmu'].
        assert (Hrun : run m0 ws = (pre ++ [Lbl e r], w', Some a)).
        { apply steps_run. rewrite <- Ha.
          eapply steps_snoc; [exact Hpre|by constructor]. }
        exists (order ++ [t1]), w', (trs ++ tag t1 (pre ++ [Lbl e r])), (rs ++ [(t1, a)]).
        split_and!.
        -- apply NoDup_app. split_and!; [done| |apply NoDup_singleton].
           intros y Hy ->%list_elem_of_singleton. done.
        -- by eapply serial_snoc.
        -- by rewrite length_insert.
        -- intros t' a' [Hin|[= -> ->]%list_elem_of_singleton]%elem_of_app.
           ++ by apply Hrs'.
           ++ rewrite Ha. by apply list_lookup_insert_eq.
        -- intros t'. rewrite elem_of_app, list_elem_of_singleton, Hord. split.
           ++ intros [[a' Hin]| ->].
              ** exists a'. apply elem_of_app. by left.
              ** exists a. apply elem_of_app. right. by apply list_elem_of_singleton.
           ++ intros [a' [Hin|Hin%list_elem_of_singleton]%elem_of_app].
              ** left. by exists a'.
              ** right. congruence.
        -- left. split_and!; try done.
           ++ by rewrite tag_app, !app_assoc.
           ++ intros t' Hin. rewrite elem_of_app, list_elem_of_singleton in Hin.
              rewrite list_lookup_insert_ne by (intros <-; tauto).
              apply Hidle; [tauto|]. intros ->. tauto.
      * (* it is still in its critical section *)
        destruct (is_lock_glMu e) eqn:Hlock; [done|].
        pose proof (handle_keeps_glMu e w r w' Hlock Hunlock He) as Hmu'.
        exists order, ws, trs, rs. split_and!; try done.
        { by rewrite length_insert. }
        right. exists t1, m0, (k r), (pre ++ [Lbl e r]). split_and!; try done.
        -- congruence.
        -- by apply list_lookup_insert_eq.
        -- eapply steps_snoc; [exact Hpre|by constructor].
        -- by rewrite tag_app, !app_assoc.
        -- intros t' Hin Hne. rewrite list_lookup_insert_ne by done. by apply Hidle.
    + (* another goroutine could only lock, and glMu is held *)
      rewrite Hidle in Ht by done.
      pose proof (Forall_lookup_1 _ _ _ _ Hatomic Ht) as [Hlock Hk].
      destruct (handle_lock_glMu e w r w' Hlock He) as [Hfree _]. congruence.
Qed.

Lemma psteps_serialized {A} (ts0 : list (Op A)) w0 st1 tr st2 :
  psteps st1 tr st2 → st1 = (ts0, w0) →
  Forall atomic ts0 → glMu_locked w0 = false →
  serialized ts0 w0 st2.1 st2.2 tr.
Proof.
  intros H -> Hatomic Hmu.
  remember (ts0, w0) as st1 eqn:E.
  induction H as [st|st1 tr [ts w] x [ts' w'] H IH Hp].
  - subst st. by apply serialized_init.
  - eapply serialized_pstep; [done|by apply IH|done].
Qed.

(** When every goroutine has returned, the whole interleaving is a serial
    execution of all of them. *)
Lemma serialized_finished {A} (ts0 : list (Op A)) w0 ts w tr :
  Forall atomic ts0 →
  serialized ts0 w0 ts w tr →
  (∀ m, m ∈ ts → ∃ a, m = Ret a) →
  ∃ order rs,
    order ≡ₚ seq 0 (length ts0)
    ∧ serial ts0 order w0 = Some (w, tr, rs)
    ∧ ∀ t a, (t, a) ∈ rs → ts !! t = Some (Ret a).
Proof.
  intros Hatomic (order & ws & trs & rs & Hnd & Hser & Hlen & Hrs & Hord & Hcase) Hret.
  destruct Hcase as [(Hmu & <- & -> & Hidle)
                    |(t1 & m0 & m1 & pre & _ & _ & _ & Hm1 & Hcrit & _)].
  - exists order, rs. split_and!; try done.
    apply NoDup_Permutation; [done|apply NoDup_seq|].
    intros t. rewrite elem_of_seq. split.
    + intros [a Hin]%Hord. apply Hrs in Hin.
      apply lookup_lt_Some in Hin. lia.
    + intros [_ Hlt]. destruct (decide (t ∈ order)) as [|Hnot]; [done|].
      exfalso. cbn in Hlt. rewrite <- Hlen in Hlt.
      destruct (lookup_lt_is_Some_2 ts t Hlt) as [m Hm].
      destruct (Hret m) as [a ->]; [by eapply list_elem_of_lookup_2|].
      rewrite Hidle in Hm by done.
      by pose proof (Forall_lookup_1 _ _ _ _ Hatomic Hm).
  - destruct (Hret m1) as [a ->]; [by eapply list_elem_of_lookup_2|]. done.
Qed.

(** *** Blocks *)

Lemma tag_lookup t tr i x : tag t tr !! i = Some x → x.1 = t.
Proof.
  unfold tag. rewrite list_lookup_fmap. by destruct (tr !! i); intros [= <-].
Qed.

Lemma flatten_cons b bs : flatten (b :: bs) = tag b.1 b.2 ++ flatten bs.
Proof. reflexivity. Qed.

Lemma flatten_snoc bs b : flatten (bs ++ [b]) = flatten bs ++ tag b.1 b.2.
Proof.
  unfold flatten. rewrite fmap_app, concat_app. cbn. by rewrite app_nil_r.
Qed.

Lemma flatten_lookup bs i x : flatten bs !! i = Some x → x.1 ∈ bs.*1.
Proof.
  revert i. induction bs as [|b bs IH]; intros i; [done|].
  rewrite flatten_cons. intros [H|[_ H]]%lookup_app_Some.
  - apply tag_lookup in H as ->. cbn. left.
  - cbn. right. by eapply IH.
Qed.

Lemma uninterrupted_flatten bs : NoDup bs.*1 → uninterrupted (flatten bs).
Proof.
  induction bs as [|[t0 tr0] bs IH]; intros Hnd.
  { intros i j k t la lb x _ H. done. }
  cbn in Hnd. apply NoDup_cons in Hnd as [Hnot Hnd].
  rewrite flatten_cons. cbn [fst snd].
  intros i j k t la lb x Hijk Hi Hk Hj.
  apply lookup_app_Some in Hi as [Hi|[Hi1 Hi2]];
    apply lookup_app_Some in Hk as [Hk|[Hk1 Hk2]];
    apply lookup_app_Some in Hj as [Hj|[Hj1 Hj2]].
  - apply tag_lookup in Hj, Hk. cbn in *. congruence.
  - apply lookup_lt_Some in Hk. lia.
  - apply tag_lookup in Hi. apply flatten_lookup in Hk2. cbn in *. by subst.
  - apply tag_lookup in Hi. apply flatten_lookup in Hk2. cbn in *. by subst.
  - apply lookup_lt_Some in Hk. lia.
  - apply lookup_lt_Some in Hk. lia.
  - apply lookup_lt_Some in Hj. lia.
  - eapply (IH Hnd (i - length (tag t0 tr0))%nat (j - length (tag t0 tr0))%nat
              (k - length (tag t0 tr0))%nat); [lia|done..].
Qed.

Lemma serial_blocks {A} (ts : list (Op A)) order w0 ws trs rs :
  serial ts order w0 = Some (ws, trs, rs) →
  ∃ bs, bs.*1 = order ∧ trs = flatten bs.
Proof.
  revert w0 trs rs. induction order as [|t order IH]; intros w0 trs rs Hser.
  - cbn in Hser. simplify_eq. by exists [].
  - cbn in Hser. destruct (ts !! t) as [m|]; [|done]. cbn in Hser.
    destruct (run m w0) as [[tr0 w1] [a|]]; [|done].
    destruct (serial ts order w1) as [[[w2 tr2] rs2]|] eqn:Hs; [|done].
    cbn in Hser. simplify_eq.
    destruct (IH _ _ _ Hs) as (bs & <- & ->).
    by exists ((t, tr0) :: bs).
Qed.

Lemma serialized_blocks {A} (ts0 : list (Op A)) w0 ts w tr :
  serialized ts0 w0 ts w tr → ∃ bs, NoDup bs.*1 ∧ tr = flatten bs.
Proof.
  intros (order & ws & trs & rs & Hnd & Hser & _ & _ & _ & Hcase).
  destruct (serial_blocks _ _ _ _ _ _ Hser) as (bs & <- & ->).
  destruct Hcase as [(_ & _ & -> & _)|(t & m0 & m & pre & _ & Hnot & _ & _ & _ & _ & -> & _)].
  - by exists bs.
  - exists (bs ++ [(t, pre)]). split; [|by rewrite flatten_snoc].
    rewrite fmap_app. apply NoDup_app. split_and!; [done| |apply NoDup_singleton].
    intros y Hy ->%list_elem_of_singleton. done.
Qed.

(** Keeping only the actions on the GPU keeps the blocks. *)
Lemma gpu_trace_tag t tr : gpu_trace (tag t tr) = tag t (List.filter is_gpu tr).
Proof.
  unfold gpu_trace, tag. induction tr as [|l tr IH]; [done|].
  cbn. destruct (is_gpu l); cbn; by rewrite IH.
Qed.

Lemma gpu_trace_app tr1 tr2 : gpu_trace (tr1 ++ tr2) = gpu_trace tr1 ++ gpu_trace tr2.
Proof. apply List.filter_app. Qed.

Lemma gpu_trace_flatten bs :
  gpu_trace (flatten bs) = flatten ((λ b, (b.1, List.filter is_gpu b.2)) <$> bs).
Proof.
  induction bs as [|[t tr] bs IH]; [done|].
  rewrite fmap_cons, !flatten_cons, gpu_trace_app, gpu_trace_tag, IH. done.
Qed.

Lemma serialized_uninterrupted {A} (ts0 : list (Op A)) w0 ts w tr :
  serialized ts0 w0 ts w tr → uninterrupted tr ∧ uninterrupted (gpu_trace tr).
Proof.
  intros (bs & Hnd & ->)%serialized_blocks. split.
  - by apply uninterrupted_flatten.
  - rewrite gpu_trace_flatten. apply uninterrupted_flatten.
    by rewrite <- list_fmap_compose.
Qed.

(** *** The operations are critical sections *)

Lemma atomic_code o : atomic (code o).
Proof.
  destruct o; cbn; (split; [done|]); intros;
    repeat (first [ progress cbn | case_match | intro ]);
    try done; by eexists.
Qed.

(** C1: take any operations (texture creations, uploads, draws), each run by
    a goroutine of its own, and any interleaving of their actions from a
    store where [glMu] is free.  Then
    - every operation is one critical section of [glMu]: all its actions,
      the calls on the GPU among them, come after its [Lock] and before its
      [Unlock];
    - the trace is that of whole operations run one after the other in some
      order, followed at most by the actions done so far by the one
      operation that holds [glMu], and the store is the one so reached;
    - between two actions of an operation there is no action of another, in
      the whole trace and in the trace of the calls on the GPU;
    - if all goroutines have returned, the trace, the store and the results
      are those of running all the operations one after the other, in some
      order. *)
Theorem C1_operations_serialized (ops : list operation) (w0 : World) ts w tr :
  glMu_locked w0 = false →
  psteps (code <$> ops, w0) tr (ts, w) →
  Forall atomic (code <$> ops)
  ∧ serialized (code <$> ops) w0 ts w tr
  ∧ uninterrupted tr
  ∧ uninterrupted (gpu_trace tr)
  ∧ ((∀ m, m ∈ ts → ∃ a, m = Ret a) →
     ∃ order rs,
       order ≡ₚ seq 0 (length ops)
       ∧ serial (code <$> ops) order w0 = Some (w, tr, rs)
       ∧ ∀ t a, (t, a) ∈ rs → ts !! t = Some (Ret a)).
Proof.
  intros Hmu Hsteps.
  assert (Hatomic : Forall atomic (code <$> ops)).
  { apply Forall_fmap, Forall_forall. intros o _. apply atomic_code. }
  pose proof (psteps_serialized _ w0 _ _ _ Hsteps eq_refl Hatomic Hmu) as Hser.
  cbn [fst snd] in Hser.
  destruct (serialized_uninterrupted _ _ _ _ _ Hser) as [Hun Hgpu].
  split_and!; [done..|].
  intros Hret.
  destruct (serialized_finished _ _ _ _ _ Hatomic Hser Hret) as (order & rs & Hp & Hs & Hr).
  exists order, rs. by rewrite length_fmap in Hp.
Qed.

Lemma psteps_cons {A} (st1 st2 st3 : list (Op A) * World) x tr :
  pstep st1 x st2 → psteps st2 tr st3 → psteps st1 (x :: tr) st3.
Proof.
  intros H1 H2. induction H2 as [st|st2 tr st3 y st4 H2 IH Hp].
  - apply (psteps_snoc _ [] _ _ _ (psteps_nil _) H1).
  - apply (psteps_snoc _ (x :: tr) _ _ _ (IH H1) Hp).
Qed.

End Interleaving.

(** The compiler of the drivers used below returns programs of the context. *)
Lemma fake_compile_sound vSrc : compile_sound (D := fakeDriver vSrc).
Proof.
  intros vs fs g pr g1. cbn. unfold fake_compile.
  case_decide; [done|]. intros [= <- <-]. cbn. set_solver.
Qed.

Lemma world_with_context_same : same_context 7%nat world_with_context.
Proof.
  intros id p H.
  change (windows (theScreen world_with_context))
    with ({[4096 := 4%nat]} : gmap Z nat) in H.
  apply lookup_singleton_Some in H as [<- <-].
  exists the_window. split; reflexivity.
Qed.

(** *** On concrete stores *)

Section GoodDriver.
#[local] Existing Instance goodDriver.

Example world_one_window_registry :
  windows (theScreen world_one_window) !! 4096 = Some 4%nat
  ∧ wheap world_one_window !! 4%nat = Some (set_glctx None the_window)
  ∧ glMu_locked world_one_window = false.
Proof. vm_compute. done. Qed.

Lemma C2_NewTexture_no_window_witness :
  run (NewTexture (image.mkPoint 64 64)) (world0 [])
  = ([Lbl (Lock glMu) tt; Lbl RangeWindows None; Lbl (Unlock glMu) tt],
     set_rand (tl (rand (world0 []))) (world0 []),
     Some (None, Some NoContextAvailable)).
Proof.
  apply (C2_NewTexture_no_window (image.mkPoint 64 64) (world0 []));
    reflexivity.
Defined.

(** C3, as stated, fails: the registry of [world_one_window] holds a window
    (the one [NewWindow] has just registered), yet [NewTexture] returns
    [NoContextAvailable] and no texture, because line 76 finds the window's
    [glctx] nil. *)
Lemma C3_window_without_context :
  windows (theScreen world_one_window) !! 4096 = Some 4%nat
  ∧ glMu_locked world_one_window = false
  ∧ (run (NewTexture (image.mkPoint 64 64)) world_one_window).2
    = Some (None, Some NoContextAvailable).
Proof. vm_compute. done. Qed.

Lemma C3_NewTexture_ok_witness :
  ∃ tr w' t o,
    run (NewTexture (image.mkPoint 64 64)) world_with_context
    = (tr, w', Some (Some t, None))
    ∧ t_size t = image.mkPoint 64 64 ∧ t_glctx t = 7%nat
    ∧ gl.textures (ctx_state w' 7%nat) !! gl.tValue (t_id t) = Some o
    ∧ gl.tex_width o = 64 ∧ gl.tex_height o = 64
    ∧ linear_clamped o
    ∧ gl.texture_2d (ctx_state w' 7%nat) = t_id t
    ∧ ∃ pre g, tr = pre ++ alloc_trace 7%nat (image.mkPoint 64 64) g
                       ++ [Lbl (Unlock glMu) tt]
               ∧ t_id t = new_texture_id g.
Proof.
  apply (C3_NewTexture_ok (image.mkPoint 64 64) world_with_context
           4096 4%nat the_window 7%nat).
  - reflexivity.
  - reflexivity.
  - reflexivity.
  - reflexivity.
  - right. eexists _, _. reflexivity.
Defined.

Lemma C4_compiled_at_most_once_witness :
  let sizes := [image.mkPoint 64 64; image.mkPoint 32 32; image.mkPoint 1 1] in
  let calls := run_seq (NewTexture <$> sizes) world_with_context in
  (compilations calls ≤ 1)%nat
  ∧ (∀ i j ci cj,
       (i < j)%nat → calls !! i = Some ci → calls !! j = Some cj →
       returned_ok ci.2 →
       returned_ok cj.2
       ∧ saw_valid_program 7%nat cj.1.1
       ∧ count is_compile cj.1.1 = 0%nat
       ∧ count is_store_tex cj.1.1 = 0%nat
       ∧ texture (theScreen cj.1.2) = texture (theScreen ci.1.2))
  ∧ (∀ i ci,
       calls !! i = Some ci → returned_ok ci.2 →
       (saw_valid_program 7%nat ci.1.1 ∧ count is_compile ci.1.1 = 0%nat)
       ∨ (count is_compile ci.1.1 = 1%nat
          ∧ texture_program_valid 7%nat ci.1.2
          ∧ ∃ pr g1,
              Lbl (CompileProgram 7%nat textureVertexSrc textureFragmentSrc) (pr, None)
                ∈ ci.1.1
              ∧ texture (theScreen ci.1.2) = setup_texture pr g1
              ∧ gl.buffers (ctx_state ci.1.2 7%nat)
                  !! gl.bValue (quad (setup_texture pr g1))
                = Some quadCoords)).
Proof.
  apply (C4_compiled_at_most_once
           [image.mkPoint 64 64; image.mkPoint 32 32; image.mkPoint 1 1]
           world_with_context 7%nat).
  - reflexivity.
  - exact world_with_context_same.
  - exact (fake_compile_sound _).
Defined.

(** On these stores the program is compiled by the first call and by no
    other. *)
Example three_textures_one_compilation :
  (λ ci, (count is_compile ci.1.1, ci.2))
    <$> run_seq (NewTexture <$> [image.mkPoint 64 64; image.mkPoint 32 32])
          world_with_context
  = [ (1%nat, Some (Some (mkTextureImpl 7%nat (gl.mkTexture 1) (image.mkPoint 64 64)), None));
      (0%nat, Some (Some (mkTextureImpl 7%nat (gl.mkTexture 2) (image.mkPoint 32 32)), None)) ].
Proof. vm_compute. reflexivity. Qed.

Lemma C7_publish_coalesced_witness :
  let w := world0 [] in
  let p := new_window_ptr w in
  let w1 := (run (NewWindow (@None unit)) w).1.2 in
  let w2 := after_calls 2 (Publish p) w1 in
  pending w1 p = Some 0%nat
  ∧ (∀ acts, ∃ k, pending (after_all (publish_or_consume p <$> acts) w1) p = Some k
                  ∧ (k ≤ 1)%nat)
  ∧ pending w2 p = Some 1%nat
  ∧ (run (Publish p) w1).2 = Some true
  ∧ (run (Publish p) w2).2 = Some false
  ∧ (run (ConsumePublish p) w2).2 = Some true
  ∧ (run (ConsumePublish p) (run (ConsumePublish p) w2).1.2).2 = Some false.
Proof.
  apply (C7_publish_coalesced (@None unit) (world0 []) 1). reflexivity.
Defined.

Lemma C8_NewWindow_ignores_options_witness :
  NewWindow (Some (800, 600)) = NewWindow (@None unit)
  ∧ ∃ tr,
      (run (NewWindow (Some (800, 600))) (world0 [])).1.1
      = Lbl (CallNewWindow 1024 768) (new_id (world0 [])) :: tr
      ∧ count is_call_new_window tr = 0%nat
      ∧ platform (run (NewWindow (Some (800, 600))) (world0 [])).1.2
        = showWindowCall (new_id (world0 [])) :: newWindowCall 1024 768
            :: platform (world0 []).
Proof.
  apply (C8_NewWindow_ignores_options (Some (800, 600)) (@None unit) (world0 [])).
  reflexivity.
Defined.

Lemma C9_NewWindow_never_fails_witness :
  (∃ tr w' p, run (NewWindow (@None unit)) (world0 []) = (tr, w', Some (Some p, None))
              ∧ is_Some (wheap w' !! p))
  ∧ all_leaves (λ r, ∃ p, r = (Some p, None)) (NewWindow (@None unit)).
Proof.
  apply (C9_NewWindow_never_fails (@None unit) (world0 [])). reflexivity.
Defined.

Lemma C10_registered_before_attached_witness :
  let w := world0 [] in
  ∃ rest,
    steps (NewWindow (@None unit), w) (register_trace w) (rest, registered w)
    ∧ windows (theScreen (registered w)) !! new_id w = Some (new_window_ptr w)
    ∧ wheap (registered w) !! new_window_ptr w = Some (new_window w)
    ∧ ctx (new_window w) = 0
    ∧ glctx (new_window w) = None
    ∧ mu (theScreen (registered w)) = false
    ∧ count is_attach (register_trace w) = 0%nat
    ∧ steps (rest, registered w) (attach_trace w)
        (Ret (Some (new_window_ptr w), None), after_NewWindow w)
    ∧ ctx <$> wheap (after_NewWindow w) !! new_window_ptr w = Some (new_ctx w).
Proof.
  apply (C10_registered_before_attached (@None unit) (world0 [])). reflexivity.
Defined.

(** An interleaving of [demo_ops]: goroutine 0 runs its upload whole, then
    goroutine 1 takes [glMu] and starts looking for a context. *)
Lemma demo_interleaving :
  ∃ ts w,
    psteps (code <$> demo_ops, world_with_context)
      [ (0%nat, Lbl (Lock glMu) tt);
        (0%nat, Lbl (GL 7%nat (gl.BindTexture gl.TEXTURE_2D (gl.mkTexture 1))) tt);
        (0%nat, Lbl (GL 7%nat (gl.TexSubImage2D gl.TEXTURE_2D 0 0 0 1 1 gl.RGBA
                                 gl.UNSIGNED_BYTE
                                 [Byte.xff; Byte.x00; Byte.x00; Byte.xff])) tt);
        (0%nat, Lbl (Unlock glMu) tt);
        (1%nat, Lbl (Lock glMu) tt);
        (1%nat, Lbl RangeWindows (Some 4%nat)) ]
      (ts, w)
    ∧ glMu_locked w = true
    ∧ ts !! 0%nat = Some (Ret no_result).
Proof.
  eexists _, _. split.
  - eapply psteps_cons.
    { eapply (pstep_at _ _ 0%nat); [reflexivity|]. apply step_vis. reflexivity. }
    eapply psteps_cons.
    { eapply (pstep_at _ _ 0%nat); [reflexivity|]. apply step_vis. reflexivity. }
    eapply psteps_cons.
    { eapply (pstep_at _ _ 0%nat); [reflexivity|]. apply step_vis. reflexivity. }
    eapply psteps_cons.
    { eapply (pstep_at _ _ 0%nat); [reflexivity|]. apply step_vis. reflexivity. }
    eapply psteps_cons.
    { eapply (pstep_at _ _ 1%nat); [reflexivity|]. apply step_vis. reflexivity. }
    eapply psteps_cons.
    { eapply (pstep_at _ _ 1%nat); [reflexivity|]. apply step_vis. reflexivity. }
    apply psteps_nil.
  - split; reflexivity.
Defined.

Lemma C1_operations_serialized_witness :
  ∃ ts w tr,
    psteps (code <$> demo_ops, world_with_context) tr (ts, w)
    ∧ length tr = 6%nat
    ∧ Forall atomic (code <$> demo_ops)
    ∧ serialized (code <$> demo_ops) world_with_context ts w tr
    ∧ uninterrupted tr
    ∧ uninterrupted (gpu_trace tr)
    ∧ ((∀ m, m ∈ ts → ∃ a, m = Ret a) →
       ∃ order rs,
         order ≡ₚ seq 0 (length demo_ops)
         ∧ serial (code <$> demo_ops) order world_with_context = Some (w, tr, rs)
         ∧ ∀ t a, (t, a) ∈ rs → ts !! t = Some (Ret a)).
Proof.
  destruct demo_interleaving as (ts & w & Hsteps & _).
  eexists ts, w, _. split; [exact Hsteps|]. split; [reflexivity|].
  apply (C1_operations_serialized demo_ops world_with_context ts w _);
    [reflexivity|exact Hsteps].
Defined.

End GoodDriver.

Section BadDriver.
#[local] Existing Instance badDriver.

(** With a registered window that has a context, a compiler failure is a
    second way for [NewTexture] to fail. *)
Example NewTexture_compile_error :
  (run (NewTexture (image.mkPoint 64 64)) world_with_context).2
  = Some (None, Some (Errorf "gldriver: shader compile: empty source")).
Proof. vm_compute. done. Qed.

Lemma C5_compile_failure_witness :
  ∃ tr w',
    run (NewTexture (image.mkPoint 64 64)) world_with_context
    = (tr, w', Some (None, Some (Errorf "gldriver: shader compile: empty source")))
    ∧ theScreen w' = theScreen world_with_context
    ∧ ctx_state w' 7%nat = gl.State0
    ∧ glMu_locked w' = false
    ∧ count is_compile tr = 1%nat
    ∧ count is_create_texture tr = 0%nat
    ∧ count is_store_tex tr = 0%nat.
Proof.
  apply (C5_compile_failure (image.mkPoint 64 64) world_with_context
           4096 4%nat the_window 7%nat (gl.mkProgram false 0)).
  - reflexivity.
  - reflexivity.
  - reflexivity.
  - reflexivity.
  - vm_compute. set_solver.
  - reflexivity.
Defined.

End BadDriver.

(** * Further properties of [screen.go] *)

(** ** [NewBuffer]: exactly when it returns *)

Lemma Mul64_high x y : 0 ≤ x * y → 2 ^ 64 ≤ x * y → (image.Mul64 x y).1 ≠ 0.
Proof.
  intros H0 H. unfold image.Mul64. cbn [fst].
  assert (1 ≤ x * y / 2 ^ 64); [|lia].
  apply Z.div_le_lower_bound; lia.
Qed.

Lemma mul3NonNeg_overflow x y z :
  0 ≤ x → 0 ≤ y → 0 ≤ z → x * y < 2 ^ 64 → z < 2 ^ 64 →
  2 ^ 63 ≤ x * y * z → image.mul3NonNeg x y z = -1.
Proof.
  intros Hx Hy Hz Hxy Hz' Hbig. unfold image.mul3NonNeg.
  assert (0 ≤ x * y) by lia.
  replace (x <? 0) with false by (symmetry; apply Z.ltb_ge; lia).
  replace (y <? 0) with false by (symmetry; apply Z.ltb_ge; lia).
  replace (z <? 0) with false by (symmetry; apply Z.ltb_ge; lia).
  cbn [orb]. rewrite Mul64_small by lia. cbn [negb Z.eqb].
  destruct (decide (x * y * z < 2 ^ 64)) as [Hlt|Hge].
  - rewrite Mul64_small by lia. cbn [negb Z.eqb].
    assert (Hw : int_wrap (x * y * z) = x * y * z - 2 ^ 64).
    { unfold int_wrap.
      replace (x * y * z + 2 ^ 63) with (x * y * z - 2 ^ 63 + 1 * 2 ^ 64) by lia.
      rewrite Z.mod_add by lia. rewrite Z.mod_small by lia. lia. }
    rewrite Hw.
    by replace (x * y * z - 2 ^ 64 <? 0) with true by (symmetry; apply Z.ltb_lt; lia).
  - pose proof (Mul64_high (x * y) z ltac:(lia) ltac:(lia)) as Hhi.
    destruct (image.Mul64 (x * y) z) as [hi lo]. cbn [fst] in Hhi.
    by replace (hi =? 0) with false by (symmetry; apply Z.eqb_neq; lia).
Qed.

Lemma mul3NonNeg_wide x y z :
  0 ≤ x → 0 ≤ y → 0 ≤ z → 2 ^ 64 ≤ x * y → image.mul3NonNeg x y z = -1.
Proof.
  intros Hx Hy Hz Hxy. unfold image.mul3NonNeg.
  replace (x <? 0) with false by (symmetry; apply Z.ltb_ge; lia).
  replace (y <? 0) with false by (symmetry; apply Z.ltb_ge; lia).
  replace (z <? 0) with false by (symmetry; apply Z.ltb_ge; lia).
  cbn [orb].
  pose proof (Mul64_high x y ltac:(lia) ltac:(lia)) as Hhi.
  destruct (image.Mul64 x y) as [hi lo]. cbn [fst] in Hhi.
  by replace (hi =? 0) with false by (symmetry; apply Z.eqb_neq; lia).
Qed.

(** X1: what [NewBuffer] does for every size whose coordinates are Go
    [int]s and every state of the memory.  If a coordinate is negative, the
    width is 2^62 or more (even with height 0), or the byte count 4*X*Y does
    not fit in an [int], it panics with the message of [image.NewRGBA].
    Otherwise, if 4*X*Y exceeds the largest allocation the runtime accepts,
    it panics in [make]; otherwise, if the memory cannot be obtained, the
    process ends with a fatal error; otherwise it returns a buffer of 4*X*Y
    zero bytes with stride 4*X as an [int] (it wraps for X >= 2^61, which
    needs Y = 0), bounds (0,0)-(X,Y) and the size recorded, and a nil
    error. *)
Theorem X1_NewBuffer_outcomes (mem : Memory) (size : image.Point) :
  - 2 ^ 63 ≤ image.X size < 2 ^ 63 →
  - 2 ^ 63 ≤ image.Y size < 2 ^ 63 →
  let n := 4 * image.X size * image.Y size in
  let fits := 0 ≤ image.X size < 2 ^ 62 ∧ 0 ≤ image.Y size ∧ n < 2 ^ 63 in
  (¬ fits →
   NewBuffer mem size
   = Panics "image: NewRGBA Rectangle has huge or negative dimensions")
  ∧ (fits → maxAlloc mem < n →
     NewBuffer mem size = Panics "runtime error: makeslice: len out of range")
  ∧ (fits → n ≤ maxAlloc mem → free_bytes mem < n →
     NewBuffer mem size = Aborts "fatal error: runtime: out of memory")
  ∧ (fits → n ≤ maxAlloc mem → n ≤ free_bytes mem →
     NewBuffer mem size
     = Returns (Some {| rgba := {| image.Pix := repeat Byte.x00 (Z.to_nat n);
                                   image.Stride := int_wrap (4 * image.X size);
                                   image.Rect := image.mkRectangle image.ZP size |};
                        b_size := size |}, None)).
Proof.
  intros HX HY n fits. subst n fits.
  destruct size as [x y]; cbn [image.X image.Y] in *.
  assert (HDx : image.Dx (image.mkRectangle image.ZP (image.mkPoint x y)) = x).
  { unfold image.Dx; cbn. rewrite Z.sub_0_r. apply int_wrap_small. lia. }
  assert (HDy : image.Dy (image.mkRectangle image.ZP (image.mkPoint x y)) = y).
  { unfold image.Dy; cbn. rewrite Z.sub_0_r. apply int_wrap_small. lia. }
  unfold NewBuffer, image.NewRGBA, image.pixelBufferLength.
  rewrite HDx, HDy.
  assert (Hfits : 0 ≤ x < 2 ^ 62 ∧ 0 ≤ y ∧ 4 * x * y < 2 ^ 63 →
                  image.mul3NonNeg 4 x y = 4 * x * y ∧ (4 * x * y <? 0) = false).
  { intros (Hx & Hy & Hn). split; [apply mul3NonNeg_exact; lia|].
    apply Z.ltb_ge. nia. }
  split_and!.
  - intros Hno.
    assert (Hm : image.mul3NonNeg 4 x y = -1).
    { destruct (decide (x < 0 ∨ y < 0)) as [Hneg|Hpos].
      - apply mul3NonNeg_negative. lia.
      - destruct (decide (x < 2 ^ 62)) as [Hx|Hx].
        + assert (¬ 4 * x * y < 2 ^ 63) by (intros ?; apply Hno; lia).
          apply mul3NonNeg_overflow; lia.
        + apply mul3NonNeg_wide; lia. }
    rewrite Hm. reflexivity.
  - intros Hf Hmax. destruct (Hfits Hf) as [-> Hpos]. rewrite Hpos.
    unfold make_bytes. rewrite Hpos.
    by replace (maxAlloc mem <? 4 * x * y) with true by (symmetry; apply Z.ltb_lt; lia).
  - intros Hf Hmax Hfree. destruct (Hfits Hf) as [-> Hpos]. rewrite Hpos.
    unfold make_bytes. rewrite Hpos.
    replace (maxAlloc mem <? 4 * x * y) with false by (symmetry; apply Z.ltb_ge; lia).
    by replace (free_bytes mem <? 4 * x * y) with true by (symmetry; apply Z.ltb_lt; lia).
  - intros Hf Hmax Hfree. destruct (Hfits Hf) as [-> Hpos]. rewrite Hpos.
    unfold make_bytes. rewrite Hpos.
    replace (maxAlloc mem <? 4 * x * y) with false by (symmetry; apply Z.ltb_ge; lia).
    by replace (free_bytes mem <? 4 * x * y) with false by (symmetry; apply Z.ltb_ge; lia).
Qed.

Lemma X1_NewBuffer_outcomes_witness :
  NewBuffer (linux_amd64 (2 ^ 36)) (image.mkPoint (2 ^ 62) 0)
  = Panics "image: NewRGBA Rectangle has huge or negative dimensions"
  ∧ NewBuffer (linux_amd64 (2 ^ 36)) (image.mkPoint (2 ^ 30) (2 ^ 30))
    = Panics "runtime error: makeslice: len out of range"
  ∧ NewBuffer (linux_amd64 (2 ^ 36)) (image.mkPoint (2 ^ 20) (2 ^ 20))
    = Aborts "fatal error: runtime: out of memory"
  ∧ NewBuffer (linux_amd64 (2 ^ 36)) (image.mkPoint 2 1)
    = Returns (Some {| rgba := {| image.Pix := repeat Byte.x00 8;
                                  image.Stride := int_wrap 8;
                                  image.Rect :=
                                    image.mkRectangle image.ZP (image.mkPoint 2 1) |};
                       b_size := image.mkPoint 2 1 |}, None).
Proof.
  split_and!.
  - apply (X1_NewBuffer_outcomes (linux_amd64 (2 ^ 36)) (image.mkPoint (2 ^ 62) 0));
      cbn; lia.
  - apply (X1_NewBuffer_outcomes (linux_amd64 (2 ^ 36))
             (image.mkPoint (2 ^ 30) (2 ^ 30))); cbn; lia.
  - apply (X1_NewBuffer_outcomes (linux_amd64 (2 ^ 36))
             (image.mkPoint (2 ^ 20) (2 ^ 20))); cbn; lia.
  - apply (X1_NewBuffer_outcomes (linux_amd64 (2 ^ 36)) (image.mkPoint 2 1));
      cbn; lia.
Defined.

(** ** [NewTexture]: every way through it *)

Section MoreSeq.
Context `{D : Driver}.

(** The five ways through [NewTexture], as a rule: what holds of each holds
    of every call made with [glMu] free in a store whose registry points to
    window objects. *)
Lemma NewTexture_cases size w
    (P : list label * World * option (option textureImpl * option error) → Prop) :
  glMu_locked w = false → registry_ok w →
  (windows (theScreen w) = ∅ →
   P ([Lbl (Lock glMu) tt; Lbl RangeWindows None; Lbl (Unlock glMu) tt],
      set_glMu false (set_rand (tl (rand w)) w),
      Some (None, Some NoContextAvailable))) →
  (∀ id p win,
     visits w id p → wheap w !! p = Some win → glctx win = None →
     P (find_trace p None ++ [Lbl (Unlock glMu) tt],
        set_glMu false (set_rand (tl (rand w)) w),
        Some (None, Some NoContextAvailable))) →
  (∀ id p win c,
     visits w id p → wheap w !! p = Some win → glctx win = Some c →
     texture_program_valid c w →
     P (find_trace p (Some c)
          ++ [Lbl (LoadTex Fprogram) (program (texture (theScreen w)));
              Lbl (GL c (gl.IsProgram (program (texture (theScreen w))))) true]
          ++ alloc_trace c size (ctx_state w c) ++ [Lbl (Unlock glMu) tt],
        set_glMu false
          (put_ctx c (alloc_state size (ctx_state w c)) (set_rand (tl (rand w)) w)),
        Some (Some (mkTextureImpl c (new_texture_id (ctx_state w c)) size), None))) →
  (∀ id p win c pr e g1,
     visits w id p → wheap w !! p = Some win → glctx win = Some c →
     ¬ texture_program_valid c w →
     compileProgram textureVertexSrc textureFragmentSrc (ctx_state w c)
       = ((pr, Some e), g1) →
     P (find_trace p (Some c)
          ++ [Lbl (LoadTex Fprogram) (program (texture (theScreen w)));
              Lbl (GL c (gl.IsProgram (program (texture (theScreen w))))) false;
              Lbl (CompileProgram c textureVertexSrc textureFragmentSrc) (pr, Some e);
              Lbl (Unlock glMu) tt],
        set_glMu false (put_ctx c g1 (set_rand (tl (rand w)) w)),
        Some (None, Some e))) →
  (∀ id p win c pr g1,
     visits w id p → wheap w !! p = Some win → glctx win = Some c →
     ¬ texture_program_valid c w →
     compileProgram textureVertexSrc textureFragmentSrc (ctx_state w c)
       = ((pr, None), g1) →
     P (find_trace p (Some c)
          ++ [Lbl (LoadTex Fprogram) (program (texture (theScreen w)));
              Lbl (GL c (gl.IsProgram (program (texture (theScreen w))))) false;
              Lbl (CompileProgram c textureVertexSrc textureFragmentSrc) (pr, None)]
          ++ setup_trace c pr g1
          ++ alloc_trace c size (setup_state g1) ++ [Lbl (Unlock glMu) tt],
        set_glMu false
          (set_theScreen (set_texture (setup_texture pr g1) (theScreen w))
             (put_ctx c (alloc_state size (setup_state g1))
                (set_rand (tl (rand w)) w))),
        Some (Some (mkTextureImpl c (new_texture_id (setup_state g1)) size), None))) →
  P (run (NewTexture size) w).
Proof.
  intros Hmu Hreg Hempty Hnil Hvalid Hfail Hok.
  destruct (range_first (hd 0%nat (rand w)) (windows (theScreen w)))
    as [[id p]|] eqn:Hv.
  - destruct (Hreg id p) as [win Hp]; [by eapply range_first_Some|].
    destruct (glctx win) as [c|] eqn:Hc.
    + destruct (decide (gl.pValue (program (texture (theScreen w)))
                        ∈ gl.programs (ctx_state w c))) as [Hin|Hout].
      * rewrite (run_NewTexture_valid _ _ id p win c) by done. by eapply Hvalid.
      * destruct (compileProgram textureVertexSrc textureFragmentSrc (ctx_state w c))
          as [[pr [e|]] g1] eqn:Hcomp.
        -- rewrite (run_NewTexture_compile_fail _ _ id p win c pr e g1) by done.
           by eapply Hfail.
        -- rewrite (run_NewTexture_compile_ok _ _ id p win c pr g1) by done.
           by eapply Hok.
    + rewrite (run_NewTexture_nil_glctx _ _ id p win) by done. by eapply Hnil.
  - apply range_first_None in Hv.
    rewrite run_NewTexture_no_window by done. by apply Hempty.
Qed.

Lemma picked_glctx_visits w id p win :
  visits w id p → wheap w !! p = Some win → picked_glctx w = glctx win.
Proof.
  unfold visits, picked_glctx. intros -> Hp. cbn. by rewrite Hp.
Qed.

Lemma glctxs_put_ctx_ne c c' g w :
  c ≠ c' → glctxs (put_ctx c g w) !! c' = glctxs w !! c'.
Proof. intros Hne. unfold put_ctx. cbn. by rewrite lookup_insert_ne. Qed.


Lemma glctxs_set_glMu b w : glctxs (set_glMu b w) = glctxs w.
Proof. reflexivity. Qed.
Lemma glctxs_set_rand r w : glctxs (set_rand r w) = glctxs w.
Proof. reflexivity. Qed.
Lemma glctxs_set_theScreen sc w : glctxs (set_theScreen sc w) = glctxs w.
Proof. reflexivity. Qed.

Ltac other_ctx :=
  rewrite ?glctxs_set_glMu, ?glctxs_set_theScreen;
  rewrite glctxs_put_ctx_ne by congruence;
  by rewrite ?glctxs_set_rand.

(** X2: if the window that the loop visits first has no GL context,
    [NewTexture] returns [NoContextAvailable] and no texture, whatever the
    other windows of the registry have: it looks at one window only.  It
    makes no call on a GL context and changes nothing but the position of
    the iteration source. *)
Theorem X2_NewTexture_first_window_without_context
    (size : image.Point) (w : World) id p win :
  glMu_locked w = false →
  visits w id p → wheap w !! p = Some win → glctx win = None →
  ∃ tr,
    run (NewTexture size) w
    = (tr, set_rand (tl (rand w)) w, Some (None, Some NoContextAvailable))
    ∧ count is_gpu tr = 0%nat
    ∧ tr = [Lbl (Lock glMu) tt; Lbl RangeWindows (Some p); Lbl (LoadGlctx p) None;
            Lbl (Unlock glMu) tt].
Proof.
  intros Hmu Hv Hp Hc. eexists. split_and!.
  - rewrite (run_NewTexture_nil_glctx _ _ id p win) by done.
    rewrite (set_glMu_id false); [reflexivity|done].
  - reflexivity.
  - reflexivity.
Qed.

(** X3: called with [glMu] free in a store whose registry points to window
    objects, [NewTexture] returns (it does not block and does not fault),
    with [glMu] free again.  It leaves the registry, [s.mu], [s.fill], the
    window objects, the channels, the allocator, the platform log and the
    goroutines as they were, and every context but the one of the window it
    picked.  If it returns no texture, [s.texture] is as before as well.
    Whether [s.mu] is held makes no difference. *)
Theorem X3_NewTexture_frame (size : image.Point) (w : World) :
  glMu_locked w = false → registry_ok w →
  ∃ tr w' r,
    run (NewTexture size) w = (tr, w', Some r)
    ∧ glMu_locked w' = false
    ∧ windows (theScreen w') = windows (theScreen w)
    ∧ mu (theScreen w') = mu (theScreen w)
    ∧ fill (theScreen w') = fill (theScreen w)
    ∧ wheap w' = wheap w
    ∧ chans w' = chans w
    ∧ next_loc w' = next_loc w
    ∧ platform w' = platform w
    ∧ goroutines w' = goroutines w
    ∧ (∀ c, picked_glctx w ≠ Some c → glctxs w' !! c = glctxs w !! c)
    ∧ (r.1 = None → texture (theScreen w') = texture (theScreen w)).
Proof.
  intros Hmu Hreg.
  apply (NewTexture_cases size w (λ x, ∃ tr w' r, x = (tr, w', Some r) ∧ _));
    [done|done|..].
  - intros _. eexists _, _, _. split; [reflexivity|]. by split_and!.
  - intros id p win Hv Hp Hc. eexists _, _, _. split; [reflexivity|]. by split_and!.
  - intros id p win c Hv Hp Hc _. eexists _, _, _. split; [reflexivity|].
    split_and!; try done.
    intros c' Hne. rewrite (picked_glctx_visits w id p win) in Hne by done.
    other_ctx.
  - intros id p win c pr e g1 Hv Hp Hc _ _. eexists _, _, _. split; [reflexivity|].
    split_and!; try done.
    intros c' Hne. rewrite (picked_glctx_visits w id p win) in Hne by done.
    other_ctx.
  - intros id p win c pr g1 Hv Hp Hc _ _. eexists _, _, _. split; [reflexivity|].
    split_and!; try done.
    intros c' Hne. rewrite (picked_glctx_visits w id p win) in Hne by done.
    other_ctx.
Qed.

Ltac wnorm := autorewrite with world.

Ltac trace_forall :=
  unfold find_trace, alloc_trace, setup_trace; cbn [app];
  repeat (constructor; [done|]); constructor.

(** X4: the GPU work of one [NewTexture] call.  The trace opens with the
    [Lock] of [glMu] and closes with its [Unlock], and these are its only
    actions on [glMu], so that every call on the GPU is made with [glMu]
    held.  Every such call is made on the context of the window picked.  A
    texture object is created exactly when a texture is returned (once), and
    the program is compiled at most once. *)
Theorem X4_NewTexture_gpu_work (size : image.Point) (w : World) :
  glMu_locked w = false → registry_ok w →
  ∃ tr w' r,
    run (NewTexture size) w = (tr, w', Some r)
    ∧ head tr = Some (Lbl (Lock glMu) tt)
    ∧ last tr = Some (Lbl (Unlock glMu) tt)
    ∧ count is_glMu tr = 2%nat
    ∧ Forall (λ l, is_gpu l = true → context_of l = picked_glctx w) tr
    ∧ count is_create_texture tr = (if got_value r then 1 else 0)%nat
    ∧ (count is_compile tr ≤ 1)%nat.
Proof.
  intros Hmu Hreg.
  apply (NewTexture_cases size w (λ x, ∃ tr w' r, x = (tr, w', Some r) ∧ _));
    [done|done|..].
  - intros _. eexists _, _, _. split; [reflexivity|].
    split_and!; try done; try (cbn; lia). trace_forall.
  - intros id p win Hv Hp Hc. eexists _, _, _. split; [reflexivity|].
    split_and!; try done; try (cbn; lia). trace_forall.
  - intros id p win c Hv Hp Hc _. eexists _, _, _. split; [reflexivity|].
    rewrite (picked_glctx_visits w id p win), Hc by done.
    split_and!; try done; try (cbn; lia). trace_forall.
  - intros id p win c pr e g1 Hv Hp Hc _ _. eexists _, _, _. split; [reflexivity|].
    rewrite (picked_glctx_visits w id p win), Hc by done.
    split_and!; try done; try (cbn; lia). trace_forall.
  - intros id p win c pr g1 Hv Hp Hc _ _. eexists _, _, _. split; [reflexivity|].
    rewrite (picked_glctx_visits w id p win), Hc by done.
    split_and!; try done; try (cbn; lia). trace_forall.
Qed.

(** *** Which window, which context *)

(** X5: which window [NewTexture] takes the context from is decided by the
    iteration order of the registry, and every registered window can be the
    one.  For each entry there is an order under which the call looks at
    that window: it then fails with [NoContextAvailable] if the window has
    no context, and returns a texture of the window's context if it has one
    in which the program is valid.  With windows of both kinds registered,
    the same call can succeed or fail. *)
Theorem X5_any_window_may_be_picked (size : image.Point) (w : World) id p win :
  glMu_locked w = false →
  windows (theScreen w) !! id = Some p → wheap w !! p = Some win →
  ∃ seed, ∀ seeds,
    let x := run (NewTexture size) (set_rand (seed :: seeds) w) in
    Lbl (LoadGlctx p) (glctx win) ∈ x.1.1
    ∧ (glctx win = None → x.2 = Some (None, Some NoContextAvailable))
    ∧ (∀ c, glctx win = Some c → texture_program_valid c w →
            ∃ t, x.2 = Some (Some t, None) ∧ t_glctx t = c ∧ t_size t = size).
Proof.
  intros Hmu Hid Hp.
  destruct (range_first_any _ _ _ Hid) as [seed Hseed].
  exists seed. intros seeds.
  set (w1 := set_rand (seed :: seeds) w).
  assert (Hv : visits w1 id p) by exact Hseed.
  assert (Hmu1 : glMu_locked w1 = false) by exact Hmu.
  assert (Hp1 : wheap w1 !! p = Some win) by exact Hp.
  assert (Hin : ∀ c rest, Lbl (LoadGlctx p) c ∈ find_trace p c ++ rest).
  { intros c rest. unfold find_trace. cbn [app]. rewrite !elem_of_cons. tauto. }
  destruct (glctx win) as [c|] eqn:Hc.
  - destruct (decide (gl.pValue (program (texture (theScreen w1)))
                      ∈ gl.programs (ctx_state w1 c))) as [Hvalid|Hinvalid].
    + cbv zeta. rewrite (run_NewTexture_valid _ _ id p win c) by done.
      split_and!; [apply Hin|done|].
      intros ? [= <-] _. by eexists.
    + destruct (compileProgram textureVertexSrc textureFragmentSrc (ctx_state w1 c))
        as [[pr [e|]] g1] eqn:Hcomp; cbv zeta.
      * rewrite (run_NewTexture_compile_fail _ _ id p win c pr e g1) by done.
        split_and!; [apply Hin|done|]. by intros ? [= <-] ?.
      * rewrite (run_NewTexture_compile_ok _ _ id p win c pr g1) by done.
        split_and!; [apply Hin|done|]. by intros ? [= <-] ?.
  - cbv zeta. rewrite (run_NewTexture_nil_glctx _ _ id p win) by done.
    split_and!; [apply Hin|done|done].
Qed.


(** ** [NewWindow] *)

Ltac never_tac :=
  repeat first
    [ exact I
    | progress cbn
    | intros ?
    | split; [reflexivity|]
    | match goal with
      | |- context [match ?x with _ => _ end] => destruct x
      end ].

Lemma registry_consistent_ok w : registry_consistent w → registry_ok w.
Proof. intros H id p Hp. destruct (H id p Hp) as (win & -> & _). by eexists. Qed.

Lemma heap_ok_after_NewWindow w : heap_ok w → heap_ok (after_NewWindow w).
Proof.
  intros H l. cbn. unfold new_chans, new_window_ptr.
  rewrite !lookup_insert_is_Some. intros Hl.
  assert (is_Some (wheap w !! l) ∨ is_Some (chans w !! l) → (l < next_loc w)%nat)
    as Hold by apply H.
  destruct Hl as [[?|[_ ?]]|[?|[_ [?|[_ [?|[_ ?]]]]]]]; try lia.
  - assert (l < next_loc w)%nat by auto. lia.
  - assert (l < next_loc w)%nat by auto. lia.
Qed.

Lemma new_window_ptr_fresh w : heap_ok w → wheap w !! new_window_ptr w = None.
Proof.
  intros H. destruct (wheap w !! new_window_ptr w) as [win|] eqn:E; [|done].
  assert (new_window_ptr w < next_loc w)%nat by (apply H; left; by eexists).
  unfold new_window_ptr in *. lia.
Qed.

Lemma wheap_after_NewWindow_old w q win :
  heap_ok w → wheap w !! q = Some win → wheap (after_NewWindow w) !! q = Some win.
Proof.
  intros H Hq. cbn. rewrite lookup_insert_ne; [done|].
  intros <-. rewrite new_window_ptr_fresh in Hq; done.
Qed.

Lemma registry_consistent_after_NewWindow w :
  heap_ok w → registry_consistent w → registry_consistent (after_NewWindow w).
Proof.
  intros Hh Hr id p. cbn [after_NewWindow theScreen registered windows].
  destruct (decide (id = new_id w)) as [->|Hne].
  - rewrite lookup_insert_eq. intros [= <-]. eexists. split.
    + cbn. apply lookup_insert_eq.
    + reflexivity.
  - rewrite lookup_insert_ne by done. intros Hp.
    destruct (Hr id p Hp) as (win & Hq & Hid).
    exists win. split; [|done]. by apply wheap_after_NewWindow_old.
Qed.

Lemma no_glctx_after_NewWindow w : no_glctx w → no_glctx (after_NewWindow w).
Proof.
  intros H p win. cbn.
  destruct (decide (p = new_window_ptr w)) as [->|Hne].
  - rewrite lookup_insert_eq. by intros [= <-].
  - rewrite lookup_insert_ne by done. apply H.
Qed.

(** X7: [NewWindow] has nothing to do with the GPU: on no path does it lock
    or unlock [glMu] or make a call on a GL context.  So it runs whether
    [glMu] is held or not (only [s.mu] must be free), and it leaves [glMu],
    the contexts, [s.texture], [s.fill] and the iteration source as they
    were, with [s.mu] free again. *)
Theorem X7_NewWindow_leaves_gl_alone {O : Type} (opts : option O) (w : World) :
  never (λ l, is_glMu l || is_gpu l) (NewWindow opts)
  ∧ (mu (theScreen w) = false →
     ∃ tr w' p,
       run (NewWindow opts) w = (tr, w', Some (Some p, None))
       ∧ count (λ l, is_glMu l || is_gpu l) tr = 0%nat
       ∧ glMu_locked w' = glMu_locked w
       ∧ glctxs w' = glctxs w
       ∧ texture (theScreen w') = texture (theScreen w)
       ∧ fill (theScreen w') = fill (theScreen w)
       ∧ rand w' = rand w
       ∧ mu (theScreen w') = false).
Proof.
  split.
  - never_tac.
  - intros Hmu. eexists _, _, _. split; [by apply run_NewWindow|]. by split_and!.
Qed.

(** X9: what [NewWindow] leaves in the store.  The window returned is
    registered under its own [id], the one the platform's [newWindow]
    answered; every other entry of the registry and every other window
    object is as before.  The window has the [ctx] that [showWindow]
    answered and no [glctx]; its [publish] channel has capacity 1, [draw]
    and [drawDone] are unbuffered, all three empty; and one goroutine,
    [drawLoop] of this window, has been started. *)
Theorem X9_NewWindow_result {O : Type} (opts : option O) (w : World) :
  mu (theScreen w) = false →
  ∃ tr w' p win,
    run (NewWindow opts) w = (tr, w', Some (Some p, None))
    ∧ wheap w' !! p = Some win
    ∧ windows (theScreen w') !! w_id win = Some p
    ∧ (∀ id, id ≠ w_id win →
             windows (theScreen w') !! id = windows (theScreen w) !! id)
    ∧ (∀ q, q ≠ p → wheap w' !! q = wheap w !! q)
    ∧ w_id win = newWindow (platform w) 1024 768
    ∧ ctx win = showWindow (newWindowCall 1024 768 :: platform w) (w_id win)
    ∧ glctx win = None
    ∧ s win = theScreenPtr
    ∧ chans w' !! publish win = Some (mkChan 1 0)
    ∧ chans w' !! draw win = Some (mkChan 0 0)
    ∧ chans w' !! drawDone win = Some (mkChan 0 0)
    ∧ goroutines w' = drawLoop p :: goroutines w.
Proof.
  intros Hmu. eexists _, _, _, _. split; [by apply run_NewWindow|].
  split; [cbn; apply lookup_insert_eq|].
  split_and!; try done.
  - cbn. apply lookup_insert_eq.
  - intros id Hne. cbn. by rewrite lookup_insert_ne.
  - intros q Hne. cbn. by rewrite lookup_insert_ne.
  - cbn. unfold new_chans. by rewrite !lookup_insert_ne, lookup_insert_eq by lia.
  - cbn. unfold new_chans. by rewrite lookup_insert_ne, lookup_insert_eq by lia.
  - cbn. unfold new_chans. by rewrite lookup_insert_eq.
Qed.

(** X10: [NewWindow] overwrites nothing.  In a store where the allocator is
    ahead of every object, the window object it returns did not exist
    before, nor did its three channels or its pump; the four are distinct;
    every window object and every channel that existed is unchanged; and the
    allocator is again ahead of every object. *)
Theorem X10_NewWindow_allocates_fresh {O : Type} (opts : option O) (w : World) :
  mu (theScreen w) = false → heap_ok w →
  ∃ tr w' p win,
    run (NewWindow opts) w = (tr, w', Some (Some p, None))
    ∧ wheap w' !! p = Some win
    ∧ wheap w !! p = None
    ∧ chans w !! publish win = None
    ∧ chans w !! draw win = None
    ∧ chans w !! drawDone win = None
    ∧ (next_loc w ≤ pump win)%nat
    ∧ NoDup [pump win; publish win; draw win; drawDone win; p]
    ∧ (∀ q win', wheap w !! q = Some win' → wheap w' !! q = Some win')
    ∧ (∀ l ch, chans w !! l = Some ch → chans w' !! l = Some ch)
    ∧ heap_ok w'.
Proof.
  intros Hmu Hh. eexists _, _, _, _. split; [by apply run_NewWindow|].
  split; [cbn; apply lookup_insert_eq|].
  assert (Hc : ∀ l, (next_loc w ≤ l)%nat → chans w !! l = None).
  { intros l Hl. destruct (chans w !! l) as [ch|] eqn:E; [|done].
    assert (l < next_loc w)%nat by (apply Hh; right; by eexists). lia. }
  split_and!.
  - by apply new_window_ptr_fresh.
  - apply Hc. cbn. lia.
  - apply Hc. cbn. lia.
  - apply Hc. cbn. lia.
  - cbn. lia.
  - cbn. unfold new_window_ptr.
    repeat (constructor; [rewrite ?elem_of_cons, elem_of_nil; lia|]). constructor.
  - intros q win' Hq. by apply wheap_after_NewWindow_old.
  - intros l ch Hl. cbn. unfold new_chans.
    rewrite !lookup_insert_ne; [done|..]; intros <-; rewrite Hc in Hl; done || lia.
  - by apply heap_ok_after_NewWindow.
Qed.

(** ** Calls of [NewWindow] and [NewTexture] in any order *)

Lemma api_inv_world0 seeds : api_inv (world0 seeds).
Proof.
  split_and!; try done.
  intros l [[? H]|[? H]]; cbn in H; by rewrite lookup_empty in H.
Qed.



Lemma has_glctx_same_heap w w' p c :
  wheap w' = wheap w → has_glctx w' p c ↔ has_glctx w p c.
Proof. unfold has_glctx. by intros ->. Qed.

(** One call in a well-formed store, whatever contexts the windows have. *)
Lemma api_ready_call c w :
  api_ready w →
  ∃ tr w' r,
    run (api_code c) w = (tr, w', Some r)
    ∧ api_ready w'
    ∧ (∀ p c', has_glctx w' p c' ↔ has_glctx w p c')
    ∧ count is_go tr = (if is_new_window c then 1 else 0)%nat
    ∧ count is_platform tr = (if is_new_window c then 2 else 0)%nat.
Proof.
  intros Hrdy. pose proof Hrdy as (Hgl & Hmu & Hh & Hr).
  destruct c as [|size]; cbn [api_code is_new_window].
  - rewrite run_bind, run_NewWindow by done. cbn [fst snd app].
    rewrite run_Ret. eexists _, _, _. split; [reflexivity|].
    split_and!; try done.
    + split_and!; try done.
      * by apply heap_ok_after_NewWindow.
      * by apply registry_consistent_after_NewWindow.
    + intros p c'. unfold has_glctx. cbn [after_NewWindow wheap].
      destruct (decide (p = new_window_ptr w)) as [->|Hne].
      * rewrite lookup_insert_eq, new_window_ptr_fresh by done.
        split; intros (win & [= <-] & Hc); done.
      * by rewrite lookup_insert_ne.
  - rewrite run_bind.
    apply (NewTexture_cases size w
             (λ x, ∃ tr w' r,
                (let '(tr1, w1, a) := x in
                 match a with
                 | Some a => let '(tr2, w2, b) := run (mret (ret_texture a)) w1 in
                             (tr1 ++ tr2, w2, b)
                 | None => (tr1, w1, None)
                 end) = (tr, w', Some r) ∧ _));
      [done | by apply registry_consistent_ok | ..];
      intros; eexists _, _, _; (split; [reflexivity|]);
      (split; [by split_and!|]); (split; [intros; by apply has_glctx_same_heap|]);
      by split.
Qed.


(** X12: the calls keep the store well formed and never fault.  In any run
    of calls of [NewWindow] and [NewTexture] mixed with steps of other code
    that keep the store well formed (mutexes free between calls, registry
    entries pointing to the window objects that carry their key, allocator
    ahead), every call is made in a well-formed store, returns, and leaves
    the store well formed.  No call changes the [glctx] of any window.  Each
    [NewWindow] starts exactly one goroutine and calls the platform exactly
    twice; [NewTexture] does neither. *)
Theorem X12_calls_keep_store_well_formed (es : list api_event) (w : World) :
  api_ready w →
  Forall (others_keep api_ready) es →
  Forall (λ x, api_ready x.1.2
               ∧ is_Some x.2.2
               ∧ api_ready x.2.1.2
               ∧ (∀ p c, has_glctx x.2.1.2 p c ↔ has_glctx x.1.2 p c)
               ∧ count is_go x.2.1.1 = (if is_new_window x.1.1 then 1 else 0)%nat
               ∧ count is_platform x.2.1.1
                 = (if is_new_window x.1.1 then 2 else 0)%nat)
    (run_events es w)
  ∧ api_ready (after_events es w).
Proof.
  revert w. induction es as [|[c|f] es IH]; intros w Hrdy Hes.
  - split; [constructor|done].
  - apply Forall_cons in Hes as [_ Hes].
    destruct (api_ready_call c w Hrdy)
      as (tr & w1 & r & Hrun & Hrdy1 & Hctx & Hgo & Hpf).
    cbn [run_events after_events]. rewrite Hrun. cbn [fst snd].
    destruct (IH w1 Hrdy1 Hes) as [Hall Hfin].
    split; [|done]. constructor; [|done]. cbn [fst snd].
    by split_and!.
  - apply Forall_cons in Hes as [Hf Hes].
    cbn [run_events after_events]. apply IH; [by apply Hf|done].
Qed.

(** ** Edge cases *)

(** X14: a failed compilation is not remembered.  If a call fails in
    [compileProgram] and the next call picks a window of the same context
    (the old handle still not being a program there), that call compiles
    again: it returns a texture and stores the new program if the compiler
    now succeeds, and the compiler's error if it fails again. *)
Theorem X14_failed_compilation_retried
    (size1 size2 : image.Point) (w : World)
    id1 p1 win1 id2 p2 win2 c pr e g1 :
  glMu_locked w = false →
  visits w id1 p1 → wheap w !! p1 = Some win1 → glctx win1 = Some c →
  range_first (hd 0%nat (tl (rand w))) (windows (theScreen w)) = Some (id2, p2) →
  wheap w !! p2 = Some win2 → glctx win2 = Some c →
  ¬ texture_program_valid c w →
  compileProgram textureVertexSrc textureFragmentSrc (ctx_state w c)
    = ((pr, Some e), g1) →
  gl.pValue (program (texture (theScreen w))) ∉ gl.programs g1 →
  ∃ x1 x2,
    run_seq [NewTexture size1; NewTexture size2] w = [x1; x2]
    ∧ x1.2 = Some (None, Some e)
    ∧ count is_compile x2.1.1 = 1%nat
    ∧ (∀ pr2 g2,
         compileProgram textureVertexSrc textureFragmentSrc g1 = ((pr2, None), g2) →
         returned_ok x2.2 ∧ program (texture (theScreen x2.1.2)) = pr2)
    ∧ (∀ pr2 e2 g2,
         compileProgram textureVertexSrc textureFragmentSrc g1 = ((pr2, Some e2), g2) →
         x2.2 = Some (None, Some e2)
         ∧ texture (theScreen x2.1.2) = texture (theScreen w)).
Proof.
  intros Hmu Hv1 Hp1 Hc1 Hv2 Hp2 Hc2 Hinv Hcomp Hinv1.
  cbn [run_seq].
  rewrite (run_NewTexture_compile_fail _ _ id1 p1 win1 c pr e g1) by done.
  cbn [fst snd].
  match goal with |- context [run (NewTexture size2) ?x] => set (w1 := x) end.
  assert (Hs : ctx_state w1 c = g1) by (unfold w1; by wnorm).
  assert (Ht : texture (theScreen w1) = texture (theScreen w)) by done.
  assert (Hinv' : gl.pValue (program (texture (theScreen w1)))
                  ∉ gl.programs (ctx_state w1 c)) by (by rewrite Hs, Ht).
  destruct (compileProgram textureVertexSrc textureFragmentSrc g1)
    as [[pr2 [e2|]] g2] eqn:Hcomp2.
  - rewrite (run_NewTexture_compile_fail size2 w1 id2 p2 win2 c pr2 e2 g2);
      [ | done | exact Hv2 | exact Hp2 | done | done | by rewrite Hs ].
    eexists _, _. split; [reflexivity|]. cbn [fst snd].
    split_and!; [done|done|by intros ?? [=]|].
    intros ??? [= <- <- <-]. done.
  - rewrite (run_NewTexture_compile_ok size2 w1 id2 p2 win2 c pr2 g2);
      [ | done | exact Hv2 | exact Hp2 | done | done | by rewrite Hs ].
    eexists _, _. split; [reflexivity|]. cbn [fst snd].
    split_and!; [done|done| |by intros ??? [=]].
    intros ?? [= <- <-]. split; [by eexists|]. by wnorm.
Qed.

(** X15: [NewWindow] does not look whether the id is already registered.
    If the platform answers an id that the registry already maps to a
    window, the entry is replaced by the new window: the old window object
    is still there, unchanged, but no entry of the registry leads to it any
    more, and the registry has the same keys as before. *)
Theorem X15_NewWindow_replaces_entry {O : Type} (opts : option O) (w : World) q :
  mu (theScreen w) = false → heap_ok w → registry_consistent w →
  windows (theScreen w) !! newWindow (platform w) 1024 768 = Some q →
  ∃ tr w' p,
    run (NewWindow opts) w = (tr, w', Some (Some p, None))
    ∧ p ≠ q
    ∧ windows (theScreen w') !! newWindow (platform w) 1024 768 = Some p
    ∧ is_Some (wheap w !! q)
    ∧ wheap w' !! q = wheap w !! q
    ∧ (∀ id, windows (theScreen w') !! id ≠ Some q)
    ∧ dom (windows (theScreen w')) = dom (windows (theScreen w)).
Proof.
  intros Hmu Hh Hr Hq. eexists _, _, _. split; [by apply run_NewWindow|].
  destruct (Hr _ _ Hq) as (win & Hwin & Hid).
  assert (Hne : new_window_ptr w ≠ q).
  { intros <-. by rewrite new_window_ptr_fresh in Hwin. }
  split_and!.
  - done.
  - cbn. apply lookup_insert_eq.
  - by eexists.
  - cbn. by rewrite lookup_insert_ne.
  - intros id. cbn. destruct (decide (id = new_id w)) as [->|Hne'].
    + rewrite lookup_insert_eq. congruence.
    + rewrite lookup_insert_ne by done. intros Hq'.
      destruct (Hr _ _ Hq') as (win' & Hwin' & Hid').
      unfold new_id in Hne'. congruence.
  - cbn. rewrite dom_insert_L.
    apply subseteq_union_1_L, singleton_subseteq_l, elem_of_dom. by eexists.
Qed.

End MoreSeq.

(** ** Goroutines: no interleaving gets stuck *)

Section MoreInterleaving.
Context `{D : Driver}.

Lemma psteps_app {A} (st1 st2 st3 : list (Op A) * World) tr1 tr2 :
  psteps st1 tr1 st2 → psteps st2 tr2 st3 → psteps st1 (tr1 ++ tr2) st3.
Proof.
  intros H1 H2. induction H2 as [st|st2 tr st3 y st4 H2 IH Hp].
  - by rewrite app_nil_r.
  - rewrite app_assoc. eapply psteps_snoc; [by apply IH|done].
Qed.

(** The steps of one goroutine are steps of the pool. *)
Lemma steps_psteps {A} (ts : list (Op A)) t m w tr m' w' :
  ts !! t = Some m →
  steps (m, w) tr (m', w') →
  psteps (ts, w) (tag t tr) (<[t := m']> ts, w').
Proof.
  intros Ht H. remember (m, w) as st eqn:E1. remember (m', w') as st' eqn:E2.
  revert ts m w Ht E1.
  induction H as [st|st1 l [m2 w2] tr st3 Hs Hss IH]; intros ts m w Ht E1.
  - simplify_eq. rewrite list_insert_id by done. constructor.
  - subst st1 st3. cbn [tag fmap list_fmap].
    eapply psteps_cons; [by econstructor|].
    assert (Hlt : (t < length ts)%nat) by (by eapply lookup_lt_Some).
    rewrite <- (list_insert_insert_eq ts t m' m2).
    apply (IH eq_refl _ m2 w2); [|done].
    by apply list_lookup_insert_eq.
Qed.

(** A sequential execution that has gone part of the way ends as the whole
    one does. *)
Lemma steps_run_suffix {A} (m0 m : Op A) ws w pre tr w1 a :
  steps (m0, ws) pre (m, w) →
  run m0 ws = (tr, w1, Some a) →
  ∃ tr1, run m w = (tr1, w1, Some a) ∧ tr = pre ++ tr1.
Proof.
  intros H. remember (m0, ws) as st eqn:E1. remember (m, w) as st' eqn:E2.
  revert m0 ws tr E1.
  induction H as [st|st1 l [m2 w2] pre st3 Hs Hss IH]; intros m0 ws tr E1 Hrun.
  - simplify_eq. by exists tr.
  - subst st1 st3. apply step_inv in Hs.
    destruct m0 as [a0|R e k]; [done|].
    destruct Hs as (r & He & -> & ->).
    rewrite (run_handled _ _ _ _ _ He) in Hrun.
    destruct (run (k r) w2) as [[tr2 w3] a3] eqn:Hk.
    unfold prepend in Hrun. cbn in Hrun. simplify_eq.
    destruct (IH eq_refl _ _ _ eq_refl Hk) as (tr1 & Htr1 & ->).
    by exists tr1.
Qed.

(** Goroutines that have returned or not started can be run one after the
    other, to the end of all. *)
Lemma ready_pool_completes {A} (I : World → Prop) (ts done : list (Op A)) w :
  Forall (λ m, ∃ a, m = Ret a) done →
  Forall (returned_or_ready I) ts →
  I w →
  ∃ tr ts' w', psteps (done ++ ts, w) tr (ts', w') ∧ finished ts' ∧ I w'.
Proof.
  revert done w. induction ts as [|m ts IH]; intros done w Hdone Hts HI.
  - exists [], (done ++ []), w. split_and!; [constructor| |done].
    rewrite app_nil_r. intros m Hm. by apply (proj1 (Forall_forall _ _) Hdone).
  - apply Forall_cons in Hts as [Hm Hts].
    destruct Hm as [[a ->]|Hm].
    + destruct (IH (done ++ [Ret a]) w) as (tr & ts' & w' & Hps & Hfin & HI');
        [apply Forall_app; split; [done|repeat constructor; by eexists]|done|done|].
      rewrite <- app_assoc in Hps. by exists tr, ts', w'.
    + destruct (Hm w HI) as (tr1 & w1 & a & Hrun & HI1).
      apply run_steps in Hrun.
      pose proof (steps_psteps (done ++ m :: ts) (length done) m w tr1 (Ret a) w1) as Hps1.
      rewrite list_lookup_middle in Hps1 by done. specialize (Hps1 eq_refl Hrun).
      replace (length done) with (length done + 0)%nat in Hps1 at 2 by lia.
      rewrite insert_app_r in Hps1. cbn [insert list_insert] in Hps1.
      destruct (IH (done ++ [Ret a]) w1) as (tr & ts' & w' & Hps & Hfin & HI');
        [apply Forall_app; split; [done|repeat constructor; by eexists]|done|done|].
      rewrite <- app_assoc in Hps.
      exists (tag (length done) tr1 ++ tr), ts', w'. split_and!; [|done|done].
      by eapply psteps_app.
Qed.

Lemma serial_inv {A} (I : World → Prop) (ts : list (Op A)) order w0 ws trs rs :
  Forall (always_returns I) ts →
  serial ts order w0 = Some (ws, trs, rs) → I w0 → I ws.
Proof.
  intros Hts. revert w0 trs rs.
  induction order as [|t order IH]; intros w0 trs rs Hser HI; cbn in Hser.
  - by simplify_eq.
  - destruct (ts !! t) as [m|] eqn:Ht; [|done]. cbn in Hser.
    destruct (Forall_lookup_1 _ _ _ _ Hts Ht w0 HI) as (tr1 & w1 & a & Hrun & HI1).
    rewrite Hrun in Hser.
    destruct (serial ts order w1) as [[[w2 tr2] rs2]|] eqn:Hs; [|done].
    cbn in Hser. simplify_eq. by eapply IH.
Qed.

(** From every state of an interleaving of critical sections that return
    when run alone, the pool can be run to the end of all its goroutines. *)
Lemma serialized_completes {A} (I : World → Prop) (ts0 : list (Op A)) w0 ts w tr :
  Forall (always_returns I) ts0 →
  I w0 →
  serialized ts0 w0 ts w tr →
  ∃ tr' ts' w', psteps (ts, w) tr' (ts', w') ∧ finished ts' ∧ I w'.
Proof.
  intros Hret HI0 (order & ws & trs & rs & Hnd & Hser & Hlen & Hrs & Hord & Hcase).
  pose proof (serial_inv I ts0 order w0 ws trs rs Hret Hser HI0) as HIs.
  assert (Hready : ∀ t m, ts !! t = Some m →
            (t ∉ order → ts !! t = ts0 !! t) → returned_or_ready I m).
  { intros t m Ht Hidle. destruct (decide (t ∈ order)) as [Hin|Hnot].
    - left. apply Hord in Hin as [a Hin]. apply Hrs in Hin. exists a. congruence.
    - right. rewrite Hidle in Ht by done. by eapply Forall_lookup_1. }
  destruct Hcase as [(Hmu & <- & -> & Hidle)
                    |(t1 & m0 & m1 & pre & Hmu & Ht1 & Hm0 & Hm1 & Hcrit & Hpre & -> & Hidle)].
  - apply (ready_pool_completes I ts [] w); [constructor| |done].
    apply Forall_lookup. intros t m Ht. apply (Hready t m Ht). intros ?. by apply Hidle.
  - destruct (Forall_lookup_1 _ _ _ _ Hret Hm0 ws HIs) as (tr0 & w1 & a & Hrun & HI1).
    destruct (steps_run_suffix _ _ _ _ _ _ _ _ Hpre Hrun) as (tr1 & Hrun1 & _).
    apply run_steps in Hrun1.
    pose proof (steps_psteps ts t1 m1 w tr1 (Ret a) w1 Hm1 Hrun1) as Hps1.
    destruct (ready_pool_completes I (<[t1 := Ret a]> ts) [] w1)
      as (tr2 & ts' & w' & Hps2 & Hfin & HI'); [constructor| |done|].
    { apply Forall_lookup. intros t m Ht.
      destruct (decide (t = t1)) as [->|Hne].
      - rewrite list_lookup_insert_eq in Ht by (by eapply lookup_lt_Some).
        left. exists a. congruence.
      - rewrite list_lookup_insert_ne in Ht by done.
        apply (Hready t m Ht). intros ?. by apply Hidle. }
    exists (tag t1 tr1 ++ tr2), ts', w'. split_and!; [|done|done].
    by eapply psteps_app.
Qed.

Lemma atomic_NewTexture size : atomic (NewTexture size).
Proof.
  cbn; (split; [done|]); intros;
    repeat (first [ progress cbn | case_match | intro ]);
    try done; by eexists.
Qed.

Lemma NewTexture_always_returns size : always_returns texture_ready (NewTexture size).
Proof.
  intros w [Hmu Hreg].
  apply (NewTexture_cases size w (λ x, ∃ tr w' r, x = (tr, w', Some r) ∧ _));
    [done|done|..]; intros; eexists _, _, _; (split; [reflexivity|]);
    by split.
Qed.

(** X13: concurrent calls of [NewTexture] cannot get stuck.  Take any number
    of calls, each in a goroutine of its own, started with [glMu] free in a
    store whose registry points to window objects, and any interleaving of
    their actions, stopped anywhere.  From there the goroutines can all be
    run to their return; [glMu] is then free, and the whole interleaving is
    that of the calls made one after the other, in some order. *)
Theorem X13_concurrent_NewTexture_complete
    (sizes : list image.Point) (w0 : World) ts w tr :
  glMu_locked w0 = false → registry_ok w0 →
  psteps (NewTexture <$> sizes, w0) tr (ts, w) →
  ∃ tr' ts' w',
    psteps (ts, w) tr' (ts', w')
    ∧ finished ts'
    ∧ glMu_locked w' = false
    ∧ registry_ok w'
    ∧ ∃ order rs,
        order ≡ₚ seq 0 (length sizes)
        ∧ serial (NewTexture <$> sizes) order w0 = Some (w', tr ++ tr', rs)
        ∧ ∀ t a, (t, a) ∈ rs → ts' !! t = Some (Ret a).
Proof.
  intros Hmu Hreg Hsteps.
  assert (Hatomic : Forall atomic (NewTexture <$> sizes)).
  { apply Forall_fmap, Forall_forall. intros o _. apply atomic_NewTexture. }
  assert (Hret : Forall (always_returns texture_ready) (NewTexture <$> sizes)).
  { apply Forall_fmap, Forall_forall. intros o _. apply NewTexture_always_returns. }
  pose proof (psteps_serialized _ w0 _ _ _ Hsteps eq_refl Hatomic Hmu) as Hser.
  cbn [fst snd] in Hser.
  destruct (serialized_completes texture_ready _ w0 ts w tr Hret (conj Hmu Hreg) Hser)
    as (tr' & ts' & w' & Hps & Hfin & Hmu' & Hreg').
  exists tr', ts', w'. split_and!; try done.
  pose proof (psteps_serialized _ w0 _ _ _ (psteps_app _ _ _ _ _ Hsteps Hps)
                eq_refl Hatomic Hmu) as Hser'.
  cbn [fst snd] in Hser'.
  destruct (serialized_finished _ _ _ _ _ Hatomic Hser' Hfin) as (order & rs & Hp & Hs & Hr).
  exists order, rs. by rewrite length_fmap in Hp.
Qed.

(** *** The registry is read without [s.mu] *)

Ltac lit :=
  cbv [set_glMu set_theScreen set_wheap set_chans set_next_loc set_glctxs
       set_rand set_platform set_goroutines set_mu set_windows set_texture
       glMu_locked theScreen wheap chans next_loc glctxs rand platform
       goroutines mu windows texture fill].

Ltac a_step :=
  eapply steps_cons;
  [ apply step_vis; cbn [handle]; lit; reflexivity | cbv beta ].

(** X8: [NewTexture] reads the registry under [glMu] only.  On no path does
    it lock or unlock [s.mu], and it never writes to the registry or to a
    window object.  So [s.mu] does not order its read of [s.windows] against
    the write in [NewWindow]: with the two running concurrently, a state is
    reached in which [NewWindow] holds [s.mu], [NewTexture] holds [glMu],
    and the write [s.windows[id] = w] and the [range] over [s.windows] are
    both the next action of their goroutine, either free to go first. *)
Theorem X8_registry_read_without_s_mu (size : image.Point) (w : World) :
  never (λ l, is_s_mu l || is_window_write l) (NewTexture size)
  ∧ (glMu_locked w = false → mu (theScreen w) = false →
     ∃ tr ts w',
       psteps ([api_code apiNewWindow; api_code (apiNewTexture size)], w) tr (ts, w')
       ∧ glMu_locked w' = true
       ∧ mu (theScreen w') = true
       ∧ (∃ st, pstep (ts, w')
                  (0%nat, Lbl (StoreWindows (new_id w) (new_window_ptr w)) tt) st)
       ∧ (∃ r st, pstep (ts, w') (1%nat, Lbl RangeWindows r) st)).
Proof.
  split.
  - cbn. repeat first
      [ exact I | intros ? | split; [reflexivity|]
      | match goal with
        | |- context [match ?x with _ => _ end] => destruct x
        end
      | progress cbn ].
  - intros Hgl Hmu. destruct w as [m [tx fl smu wins] wh ch nl gs rd pf go].
    cbn in Hgl, Hmu. subst m smu.
    eexists _, _, _. split_and!.
    + eapply psteps_app.
      * apply (steps_psteps _ 0%nat (api_code apiNewWindow)); [reflexivity|].
        cbn [api_code]. unfold NewWindow, act.
        cbn [mbind Op_bind bind mret Op_ret].
        do 7 a_step. apply steps_nil.
      * cbn [insert list_insert].
        apply (steps_psteps _ 1%nat (api_code (apiNewTexture size))); [reflexivity|].
        cbn [api_code]. unfold NewTexture, defer, act.
        cbn [mbind Op_bind bind mret Op_ret].
        a_step. apply steps_nil.
    + reflexivity.
    + reflexivity.
    + eexists. cbn [insert list_insert].
      eapply pstep_at; [reflexivity|]. apply step_vis. reflexivity.
    + eexists _, _. cbn [insert list_insert].
      eapply pstep_at; [reflexivity|]. apply step_vis. reflexivity.
Qed.

End MoreInterleaving.

(** ** On concrete stores *)

Lemma world_with_context_registry : registry_ok world_with_context.
Proof.
  intros id p H.
  change (windows (theScreen world_with_context))
    with ({[4096 := 4%nat]} : gmap Z nat) in H.
  apply lookup_singleton_Some in H as [<- <-]. exists the_window. reflexivity.
Qed.

(** Giving a window a context keeps the store well formed. *)
Lemma attach_glctx_ready p c w : api_ready w → api_ready (attach_glctx p c w).
Proof.
  intros (Hgl & Hmu & Hh & Hr). unfold attach_glctx.
  destruct (wheap w !! p) as [win|] eqn:Hp; [|done].
  split_and!; [done|done|..].
  - intros l Hl. apply Hh. cbn in Hl.
    destruct Hl as [Hl|Hl]; [left|by right].
    apply lookup_insert_is_Some in Hl as [<-|[_ Hl]]; [by eexists|done].
  - intros id q Hq. destruct (Hr id q Hq) as (win' & Hq' & Hid). cbn.
    destruct (decide (q = p)) as [->|Hne].
    + rewrite lookup_insert_eq. eexists. split; [reflexivity|].
      rewrite Hp in Hq'. by injection Hq' as <-.
    + rewrite lookup_insert_ne by done. by exists win'.
Qed.

Section MoreGoodDriver.
#[local] Existing Instance goodDriver.

(** Once other code has given the window its context, [NewTexture]
    returns a texture. *)
Example texture_after_outside_help :
  (λ x, x.2.2)
    <$> run_events [by_call apiNewWindow; by_others (attach_glctx 4 7%nat);
                    by_call (apiNewTexture (image.mkPoint 8 8))] (world0 [])
  = [ Some (ret_window (Some 4%nat, None));
      Some (ret_texture
              (Some (mkTextureImpl 7%nat (gl.mkTexture 1) (image.mkPoint 8 8)), None)) ].
Proof. vm_compute. reflexivity. Qed.


Lemma X12_calls_keep_store_well_formed_witness :
  let es := [by_call apiNewWindow; by_others (attach_glctx 4 7%nat);
             by_call (apiNewTexture (image.mkPoint 8 8))] in
  Forall (λ x, api_ready x.1.2
               ∧ is_Some x.2.2
               ∧ api_ready x.2.1.2
               ∧ (∀ p c, has_glctx x.2.1.2 p c ↔ has_glctx x.1.2 p c)
               ∧ count is_go x.2.1.1 = (if is_new_window x.1.1 then 1 else 0)%nat
               ∧ count is_platform x.2.1.1
                 = (if is_new_window x.1.1 then 2 else 0)%nat)
    (run_events es (world0 []))
  ∧ api_ready (after_events es (world0 [])).
Proof.
  apply (X12_calls_keep_store_well_formed
           [by_call apiNewWindow; by_others (attach_glctx 4 7%nat);
            by_call (apiNewTexture (image.mkPoint 8 8))] (world0 [])).
  - destruct (api_inv_world0 []) as (Hgl & Hmu & Hh & Hr & _).
    exact (conj Hgl (conj Hmu (conj Hh Hr))).
  - constructor; [exact I|]. constructor; [|constructor; [exact I|constructor]].
    intros w. apply attach_glctx_ready.
Defined.

(** In [world_two_windows] the iteration starts at the second window, which
    has no context; the first has the context 7. *)
Example world_two_windows_registry :
  visits world_two_windows 4098 9%nat
  ∧ (glctx <$> wheap world_two_windows !! 9%nat) = Some None
  ∧ (glctx <$> wheap world_two_windows !! 4%nat) = Some (Some 7%nat).
Proof. vm_compute. done. Qed.

Lemma X2_NewTexture_first_window_without_context_witness :
  ∃ tr,
    run (NewTexture (image.mkPoint 8 8)) world_two_windows
    = (tr, set_rand (tl (rand world_two_windows)) world_two_windows,
       Some (None, Some NoContextAvailable))
    ∧ count is_gpu tr = 0%nat
    ∧ tr = [Lbl (Lock glMu) tt; Lbl RangeWindows (Some 9%nat);
            Lbl (LoadGlctx 9%nat) None; Lbl (Unlock glMu) tt].
Proof.
  apply (X2_NewTexture_first_window_without_context (image.mkPoint 8 8)
           world_two_windows 4098 9%nat
           (mkWindowImpl theScreenPtr 4098 5 6 7 8 4099 None)); reflexivity.
Defined.

Lemma X3_NewTexture_frame_witness :
  ∃ tr w' r,
    run (NewTexture (image.mkPoint 8 8)) world_with_context = (tr, w', Some r)
    ∧ glMu_locked w' = false
    ∧ windows (theScreen w') = windows (theScreen world_with_context)
    ∧ wheap w' = wheap world_with_context.
Proof.
  destruct (X3_NewTexture_frame (image.mkPoint 8 8) world_with_context)
    as (tr & w' & r & Hrun & Hmu & Hwin & _ & _ & Hheap & _).
  - reflexivity.
  - exact world_with_context_registry.
  - exists tr, w', r. exact (conj Hrun (conj Hmu (conj Hwin Hheap))).
Defined.

Lemma X4_NewTexture_gpu_work_witness :
  ∃ tr w' r,
    run (NewTexture (image.mkPoint 8 8)) world_with_context = (tr, w', Some r)
    ∧ head tr = Some (Lbl (Lock glMu) tt)
    ∧ last tr = Some (Lbl (Unlock glMu) tt)
    ∧ count is_glMu tr = 2%nat
    ∧ Forall (λ l, is_gpu l = true → context_of l = picked_glctx world_with_context) tr
    ∧ count is_create_texture tr = (if got_value r then 1 else 0)%nat
    ∧ (count is_compile tr ≤ 1)%nat.
Proof.
  apply (X4_NewTexture_gpu_work (image.mkPoint 8 8) world_with_context).
  - reflexivity.
  - exact world_with_context_registry.
Defined.

Lemma X5_any_window_may_be_picked_witness :
  (∃ seed, ∀ seeds,
     (run (NewTexture (image.mkPoint 8 8))
        (set_rand (seed :: seeds) world_two_windows)).2
     = Some (None, Some NoContextAvailable))
  ∧ (∃ seed, ∀ seeds,
       Lbl (LoadGlctx 4%nat) (Some 7%nat)
       ∈ (run (NewTexture (image.mkPoint 8 8))
            (set_rand (seed :: seeds) world_two_windows)).1.1).
Proof.
  split.
  - destruct (X5_any_window_may_be_picked (image.mkPoint 8 8) world_two_windows
                4098 9%nat (mkWindowImpl theScreenPtr 4098 5 6 7 8 4099 None))
      as [seed H]; [reflexivity..|].
    exists seed. intros seeds. by apply (H seeds).
  - destruct (X5_any_window_may_be_picked (image.mkPoint 8 8) world_two_windows
                4096 4%nat the_window)
      as [seed H]; [reflexivity..|].
    exists seed. intros seeds. apply (H seeds).
Defined.


Lemma X7_NewWindow_leaves_gl_alone_witness :
  never (λ l, is_glMu l || is_gpu l) (NewWindow (@None unit))
  ∧ ∃ tr w' p,
      run (NewWindow (@None unit)) (set_glMu true (world0 []))
      = (tr, w', Some (Some p, None))
      ∧ glMu_locked w' = true.
Proof.
  destruct (X7_NewWindow_leaves_gl_alone (@None unit) (set_glMu true (world0 [])))
    as [Hnever Hrun].
  split; [exact Hnever|].
  destruct Hrun as (tr & w' & p & Hr & _ & Hmu & _); [reflexivity|].
  by exists tr, w', p.
Defined.

Lemma X9_NewWindow_result_witness :
  ∃ tr w' p win,
    run (NewWindow (@None unit)) world_one_window = (tr, w', Some (Some p, None))
    ∧ wheap w' !! p = Some win
    ∧ windows (theScreen w') !! w_id win = Some p
    ∧ w_id win = 4098
    ∧ chans w' !! publish win = Some (mkChan 1 0)
    ∧ goroutines w' = drawLoop p :: goroutines world_one_window.
Proof.
  destruct (X9_NewWindow_result (@None unit) world_one_window)
    as (tr & w' & p & win & H1 & H2 & H3 & _ & _ & H4 & _ & _ & _ & H5 & _ & _ & H6).
  - reflexivity.
  - exists tr, w', p, win.
    exact (conj H1 (conj H2 (conj H3 (conj H4 (conj H5 H6))))).
Defined.

Lemma X10_NewWindow_allocates_fresh_witness :
  ∃ tr w' p win,
    run (NewWindow (@None unit)) (world0 []) = (tr, w', Some (Some p, None))
    ∧ wheap w' !! p = Some win
    ∧ wheap (world0 []) !! p = None
    ∧ NoDup [pump win; publish win; draw win; drawDone win; p]
    ∧ heap_ok w'.
Proof.
  destruct (X10_NewWindow_allocates_fresh (@None unit) (world0 []))
    as (tr & w' & p & win & H1 & H2 & H3 & _ & _ & _ & _ & H4 & _ & _ & H5).
  - reflexivity.
  - apply (api_inv_world0 []).
  - exists tr, w', p, win. exact (conj H1 (conj H2 (conj H3 (conj H4 H5)))).
Defined.

(** Two calls of [NewTexture] in two goroutines, the second stopped inside
    its critical section. *)
Lemma two_textures_interleaving :
  ∃ ts w,
    psteps (NewTexture <$> [image.mkPoint 8 8; image.mkPoint 4 4], world_with_context)
      [ (1%nat, Lbl (Lock glMu) tt); (1%nat, Lbl RangeWindows (Some 4%nat)) ]
      (ts, w)
    ∧ glMu_locked w = true.
Proof.
  eexists _, _. split.
  - eapply psteps_cons.
    { eapply (pstep_at _ _ 1%nat); [reflexivity|]. apply step_vis. reflexivity. }
    eapply psteps_cons.
    { eapply (pstep_at _ _ 1%nat); [reflexivity|]. apply step_vis. reflexivity. }
    apply psteps_nil.
  - reflexivity.
Defined.

Lemma X13_concurrent_NewTexture_complete_witness :
  ∃ ts w tr' ts' w',
    psteps (NewTexture <$> [image.mkPoint 8 8; image.mkPoint 4 4], world_with_context)
      [ (1%nat, Lbl (Lock glMu) tt); (1%nat, Lbl RangeWindows (Some 4%nat)) ]
      (ts, w)
    ∧ psteps (ts, w) tr' (ts', w')
    ∧ finished ts'
    ∧ glMu_locked w' = false.
Proof.
  destruct two_textures_interleaving as (ts & w & Hsteps & _).
  destruct (X13_concurrent_NewTexture_complete
              [image.mkPoint 8 8; image.mkPoint 4 4] world_with_context ts w
              [ (1%nat, Lbl (Lock glMu) tt); (1%nat, Lbl RangeWindows (Some 4%nat)) ])
    as (tr' & ts' & w' & Hps & Hfin & Hmu & _).
  - reflexivity.
  - exact world_with_context_registry.
  - exact Hsteps.
  - exists ts, w, tr', ts', w'. exact (conj Hsteps (conj Hps (conj Hfin Hmu))).
Defined.

Lemma X8_registry_read_without_s_mu_witness :
  never (λ l, is_s_mu l || is_window_write l) (NewTexture (image.mkPoint 8 8))
  ∧ ∃ tr ts w',
      psteps ([api_code apiNewWindow; api_code (apiNewTexture (image.mkPoint 8 8))],
              world0 []) tr (ts, w')
      ∧ glMu_locked w' = true
      ∧ mu (theScreen w') = true
      ∧ (∃ st, pstep (ts, w') (0%nat, Lbl (StoreWindows 4096 4%nat) tt) st)
      ∧ (∃ r st, pstep (ts, w') (1%nat, Lbl RangeWindows r) st).
Proof.
  destruct (X8_registry_read_without_s_mu (image.mkPoint 8 8) (world0 []))
    as [Hnever Hrace].
  split; [exact Hnever|]. apply Hrace; reflexivity.
Defined.

End MoreGoodDriver.

Section MoreBadDriver.
#[local] Existing Instance badDriver.

Lemma X14_failed_compilation_retried_witness :
  ∃ x1 x2,
    run_seq [NewTexture (image.mkPoint 8 8); NewTexture (image.mkPoint 4 4)]
      world_with_context = [x1; x2]
    ∧ x1.2 = Some (None, Some (Errorf "gldriver: shader compile: empty source"))
    ∧ count is_compile x2.1.1 = 1%nat.
Proof.
  destruct (X14_failed_compilation_retried (image.mkPoint 8 8) (image.mkPoint 4 4)
              world_with_context 4096 4%nat the_window 4096 4%nat the_window 7%nat
              (gl.mkProgram false 0)
              (Errorf "gldriver: shader compile: empty source") gl.State0)
    as (x1 & x2 & H1 & H2 & H3 & _).
  - reflexivity.
  - reflexivity.
  - reflexivity.
  - reflexivity.
  - reflexivity.
  - reflexivity.
  - reflexivity.
  - vm_compute. set_solver.
  - reflexivity.
  - vm_compute. set_solver.
  - exists x1, x2. exact (conj H1 (conj H2 H3)).
Defined.

End MoreBadDriver.

Section SameIdDriver.
#[local] Existing Instance sameIdDriver.

Lemma world_same_id_after : world_same_id = after_NewWindow (world0 []).
Proof. unfold world_same_id. by rewrite run_NewWindow. Qed.

Lemma world_same_id_inv : api_inv world_same_id.
Proof.
  rewrite world_same_id_after.
  pose proof (api_inv_world0 []) as (Hgl & Hmu & Hh & Hr & Hn).
  split_and!; [reflexivity|reflexivity|..].
  - by apply heap_ok_after_NewWindow.
  - by apply registry_consistent_after_NewWindow.
  - by apply no_glctx_after_NewWindow.
Qed.

Lemma X15_NewWindow_replaces_entry_witness :
  windows (theScreen world_same_id) !! 4096 = Some 4%nat
  ∧ ∃ tr w' p,
      run (NewWindow (@None unit)) world_same_id = (tr, w', Some (Some p, None))
      ∧ p ≠ 4%nat
      ∧ windows (theScreen w') !! 4096 = Some p
      ∧ wheap w' !! 4%nat = wheap world_same_id !! 4%nat
      ∧ (∀ id, windows (theScreen w') !! id ≠ Some 4%nat).
Proof.
  split; [reflexivity|].
  destruct (X15_NewWindow_replaces_entry (@None unit) world_same_id 4%nat)
    as (tr & w' & p & H1 & H2 & H3 & _ & H4 & H5 & _).
  - reflexivity.
  - apply world_same_id_inv.
  - apply world_same_id_inv.
  - reflexivity.
  - exists tr, w', p. exact (conj H1 (conj H2 (conj H3 (conj H4 H5)))).
Defined.

End SameIdDriver.
